(** * css-explore: the typed stylesheet model, its builder and its formatter

    A shallow embedding of [css_explore/main.py]: the text helpers the
    module relies on ([str.splitlines], [str.join], [str.rstrip]), the
    namedtuple node classes with their [to_text] methods, the converters
    from the parser's JSON tree to those nodes, and the entry points
    [format_css] and [main]. *)

From Stdlib Require Import String Ascii NArith ZArith Bool Lia List.
Import ListNotations.

(** ** Text *)

(** A Python text string is a sequence of Unicode code points. *)
Definition char := N.
Definition str := list char.

(** An ASCII literal of the source, as code points. *)
Definition u (s : string) : str := map N_of_ascii (list_ascii_of_string s).

Definition LF : char := 10%N.
Definition CR : char := 13%N.
Definition SP : char := 32%N.

(** The one-character text ['\n']. *)
Definition nl : str := [LF].

Definition str_eqb (a b : str) : bool :=
  if list_eq_dec N.eq_dec a b then true else false.

(** The line boundaries of [str.splitlines]: LF, VT, FF, CR, FS, GS, RS,
    NEL, LINE SEPARATOR and PARAGRAPH SEPARATOR. *)
Definition is_linebreak (c : char) : bool :=
  match c with
  | 10 | 11 | 12 | 13 | 28 | 29 | 30 | 133 | 8232 | 8233 => true
  | _ => false
  end%N.

(** [text.splitlines()]: the lines of [text] without their terminators.
    CR immediately followed by LF is one terminator; a terminator at the
    very end of the text does not open a further, empty line; the empty
    text has no line. *)
Fixpoint splitlines (text : str) : list str :=
  match text with
  | [] => []
  | c :: rest =>
      if is_linebreak c then
        [] :: match rest with
              | c' :: rest' =>
                  if (c =? CR)%N && (c' =? LF)%N then splitlines rest'
                  else splitlines rest
              | [] => []
              end
      else
        match splitlines rest with
        | [] => [[c]]
        | line :: lines => (c :: line) :: lines
        end
  end.

(** [sep.join(parts)]. *)
Fixpoint join (sep : str) (parts : list str) : str :=
  match parts with
  | [] => []
  | [p] => p
  | p :: ps => p ++ sep ++ join sep ps
  end.

(** The characters [str.rstrip()] removes: those [str.isspace] accepts. *)
Definition is_space (c : char) : bool :=
  match c with
  | 9 | 10 | 11 | 12 | 13 | 28 | 29 | 30 | 31 | 32 | 133 | 160
  | 5760 | 8192 | 8193 | 8194 | 8195 | 8196 | 8197 | 8198 | 8199 | 8200
  | 8201 | 8202 | 8232 | 8233 | 8239 | 8287 | 12288 => true
  | _ => false
  end%N.

(** [text.rstrip()]: [text] without its longest suffix of whitespace. *)
Fixpoint rstrip (text : str) : str :=
  match text with
  | [] => []
  | c :: rest =>
      match rstrip rest with
      | [] => if is_space c then [] else [c]
      | kept => c :: kept
      end
  end.

(** [indent], lines 28-30. *)
Definition indent (text : str) : str :=
  let lines := splitlines text in
  join nl (map (fun line => u"    " ++ line) lines) ++ nl.

(** ** The typed node classes and their rendering *)

(** The two keyword arguments every [to_text] receives. *)
Record kwargs := Kwargs {
  ignore_charset : bool;
  ignore_empty_rules : bool
}.

(** [Property], line 96. *)
Record Property := mkProperty {
  name : str;
  value : str
}.

(** [Property.to_text], line 100. *)
Definition Property_to_text (p : Property) : str :=
  u"    " ++ name p ++ u": " ++ value p ++ u";" ++ nl.

(** [KeyFrame], line 44. *)
Record KeyFrame := mkKeyFrame {
  values : str;
  properties : list Property
}.

(** [KeyFrame.to_text], lines 47-53. *)
Definition KeyFrame_to_text (k : KeyFrame) : str :=
  values k ++ u" {" ++ nl
  ++ concat (map Property_to_text (properties k))
  ++ u"}" ++ nl.

(** The classes [generic_to_node] can produce: [Charset], [KeyFrames],
    [MediaQuery] and [Rule].  A [MediaQuery] holds any of them. *)
Unset Elimination Schemes.
Inductive node :=
| Charset (charset : str)
| KeyFrames (vendor name : str) (keyframes : list KeyFrame)
| MediaQuery (media : str) (rules : list node)
| Rule (selectors : str) (properties : list Property).
Set Elimination Schemes.

Definition is_empty {A} (l : list A) : bool :=
  match l with [] => true | _ => false end.

(** [Charset.to_text], lines 36-41. *)
Definition Charset_to_text (kw : kwargs) (charset : str) : str :=
  if ignore_charset kw then []
  else u"@charset " ++ charset ++ u";" ++ nl.

(** [KeyFrames.to_text], lines 61-68. *)
Definition KeyFrames_to_text (vendor name : str) (keyframes : list KeyFrame)
  : str :=
  u"@" ++ vendor ++ u"keyframes " ++ name ++ u" {" ++ nl
  ++ indent (concat (map KeyFrame_to_text keyframes))
  ++ u"}" ++ nl.

(** [Rule.to_text], lines 84-93. *)
Definition Rule_to_text (kw : kwargs) (selectors : str)
  (properties : list Property) : str :=
  if ignore_empty_rules kw && is_empty properties then []
  else selectors ++ u" {" ++ nl
       ++ concat (map Property_to_text properties)
       ++ u"}" ++ nl.

(** [to_text] on any node; the [MediaQuery] case is lines 74-78. *)
Fixpoint to_text (kw : kwargs) (n : node) : str :=
  match n with
  | Charset charset => Charset_to_text kw charset
  | KeyFrames vendor name keyframes => KeyFrames_to_text vendor name keyframes
  | MediaQuery media rules =>
      u"@media " ++ media ++ u" {" ++ nl
      ++ indent (concat (map (to_text kw) rules))
      ++ u"}" ++ nl
  | Rule selectors properties => Rule_to_text kw selectors properties
  end.

(** [''.join(rule.to_text(...) for rule in rules)], lines 222-228. *)
Definition render (kw : kwargs) (rules : list node) : str :=
  concat (map (to_text kw) rules).

(** ** The parser's tree *)

(** What [simplejson.loads] returns.  [JNum] stands for the integers of the
    [position] records; a record keeps its bindings in the order the
    parser wrote them, and a lookup takes the first binding of a key. *)
Unset Elimination Schemes.
Inductive json :=
| JNull
| JBool (b : bool)
| JNum (n : Z)
| JStr (s : str)
| JArr (items : list json)
| JObj (fields : list (str * json)).
Set Elimination Schemes.

Definition dict := list (str * json).

(** [set(d)], as the list of the keys of [d]. *)
Definition keys (d : dict) : list str := map fst d.

(** ** Outcomes *)

(** What a failed [assert] carries: the type of the record at line 130,
    the pair [(set(d), set(keys))] at line 126, both sets as lists. *)
Inductive assertion :=
| BadType (actual : json)
| BadKeys (present allowed : list str).

Inductive exn :=
| AssertionError (a : assertion)
| KeyError (key : json)
| TypeError
| CalledProcessError (returncode : Z) (out err : str).

(** The outcome of a call.  [Unmodelled] marks a value whose JSON shape the
    wire schema excludes and on which Python neither fails at once nor does
    anything the typed model can hold (a text where a sequence is iterated,
    a number where a text is stored): nothing is stated about such runs. *)
Inductive result (A : Type) :=
| Ok (a : A)
| Raise (e : exn)
| Unmodelled.
Arguments Ok {A} a.
Arguments Raise {A} e.
Arguments Unmodelled {A}.

Definition bind {A B} (r : result A) (k : A -> result B) : result B :=
  match r with
  | Ok a => k a
  | Raise e => Raise e
  | Unmodelled => Unmodelled
  end.

Notation "x <- r ;; k" := (bind r (fun x => k))
  (at level 61, r at next level, right associativity).
Notation "r ;; k" := (bind r (fun _ => k))
  (at level 61, right associativity).

(** [tuple(f(x) for x in items)]: left to right, the first failure ends it. *)
Fixpoint for_each {A B} (f : A -> result B) (items : list A)
  : result (list B) :=
  match items with
  | [] => Ok []
  | x :: xs => y <- f x ;; ys <- for_each f xs ;; Ok (y :: ys)
  end.

(** ** Reading the tree *)

(** [d[key]] on a record, with what is read handed to [k]. *)
Fixpoint getitem_with {A} (k : json -> result A) (d : dict) (key : str)
  : result A :=
  match d with
  | [] => Raise (KeyError (JStr key))
  | (key', v) :: d' =>
      if str_eqb key' key then k v else getitem_with k d' key
  end.

Definition getitem (d : dict) (key : str) : result json :=
  getitem_with (@Ok json) d key.

(** [d.get(key, default)]. *)
Fixpoint get (d : dict) (key : str) (default : json) : json :=
  match d with
  | [] => default
  | (key', v) :: d' => if str_eqb key' key then v else get d' key default
  end.

(** [tuple(f(x) for x in v)]: a list is walked left to right and the
    first failure ends the walk; null, booleans and numbers are not
    iterable; a text or a record would be walked by characters or by
    keys. *)
Definition for_each_in {B} (f : json -> result B) (v : json)
  : result (list B) :=
  match v with
  | JArr items => for_each f items
  | JNull | JBool _ | JNum _ => Raise TypeError
  | JStr _ | JObj _ => Unmodelled
  end.

(** A value stored in a field of a node that [to_text] formats: the
    parser gives a text there, and a text formats as itself. *)
Definition as_text (v : json) : result str :=
  match v with
  | JStr s => Ok s
  | _ => Unmodelled
  end.

(** The items of [', '.join(...)]: each must be a text. *)
Definition join_item (v : json) : result str :=
  match v with
  | JStr s => Ok s
  | _ => Raise TypeError
  end.

(** [', '.join(v)]. *)
Definition comma_join (v : json) : result str :=
  parts <- for_each_in join_item v ;;
  Ok (join (u", ") parts).

(** ** The converters *)

Definition subset (a b : list str) : bool :=
  forallb (fun x => existsb (str_eqb x) b) a.

(** [_check_keys], lines 123-126. *)
Definition _check_keys (d : dict) (keys0 : list str) : result unit :=
  let keys1 := keys0 ++ [u"position"; u"type"] in
  if subset (keys d) keys1 then Ok tt
  else Raise (AssertionError (BadKeys (keys d) keys1)).

(** [v == 'declaration']. *)
Definition is_text (v : json) (s : str) : bool :=
  match v with
  | JStr s' => str_eqb s' s
  | _ => false
  end.

(** [to_property], lines 129-132.  Subscripting anything but a record by a
    text is a [TypeError]. *)
Definition to_property (declaration_dict : json) : result Property :=
  match declaration_dict with
  | JObj d =>
      ty <- getitem d (u"type") ;;
      (if is_text ty (u"declaration") then Ok tt
       else Raise (AssertionError (BadType ty))) ;;
      _check_keys d [u"property"; u"value"] ;;
      p <- getitem d (u"property") ;;
      v <- getitem d (u"value") ;;
      p <- as_text p ;;
      v <- as_text v ;;
      Ok (mkProperty p v)
  | _ => Raise TypeError
  end.

(** [to_charset], lines 135-137. *)
Definition to_charset (charset_dict : dict) : result node :=
  _check_keys charset_dict [u"charset"] ;;
  c <- getitem_with as_text charset_dict (u"charset") ;;
  Ok (Charset c).

(** [to_keyframe], lines 140-149.  It starts with [set(keyframe_dict)],
    which a text or a list passes through as well: only records are
    followed. *)
Definition to_keyframe (keyframe_dict : json) : result KeyFrame :=
  match keyframe_dict with
  | JObj d =>
      _check_keys d [u"declarations"; u"values"] ;;
      properties <-
        getitem_with (for_each_in to_property) d (u"declarations") ;;
      values <- getitem_with comma_join d (u"values") ;;
      Ok (mkKeyFrame values properties)
  | _ => Unmodelled
  end.

(** [to_keyframes], lines 152-162. *)
Definition to_keyframes (keyframes_dict : dict) : result node :=
  _check_keys keyframes_dict [u"vendor"; u"name"; u"keyframes"] ;;
  keyframes <-
    getitem_with (for_each_in to_keyframe) keyframes_dict (u"keyframes") ;;
  let vendor := get keyframes_dict (u"vendor") (JStr []) in
  name <- getitem keyframes_dict (u"name") ;;
  vendor <- as_text vendor ;;
  name <- as_text name ;;
  Ok (KeyFrames vendor name keyframes).

(** [to_rule], lines 173-180. *)
Definition to_rule (rule_dict : dict) : result node :=
  _check_keys rule_dict [u"selectors"; u"declarations"] ;;
  selectors <- getitem_with comma_join rule_dict (u"selectors") ;;
  properties <-
    getitem_with (for_each_in to_property) rule_dict (u"declarations") ;;
  Ok (Rule selectors properties).

(** [to_media_query], lines 165-170, over the dispatch it recurses into. *)
Definition to_media_query (generic_to_node : json -> result node)
  (media_query_dict : dict) : result node :=
  _check_keys media_query_dict [u"media"; u"rules"] ;;
  rules <-
    getitem_with (for_each_in generic_to_node) media_query_dict (u"rules") ;;
  media <- getitem_with as_text media_query_dict (u"media") ;;
  Ok (MediaQuery media rules).

(** [TO_NODE_TYPES[ty]], lines 183-188: a text that is no key of the table
    and the other hashable values are a [KeyError]; a list or a record is
    unhashable. *)
Inductive converter := c_charset | c_keyframes | c_media | c_rule.

Definition TO_NODE_TYPES (ty : json) : result converter :=
  match ty with
  | JStr s =>
      if str_eqb s (u"charset") then Ok c_charset
      else if str_eqb s (u"keyframes") then Ok c_keyframes
      else if str_eqb s (u"media") then Ok c_media
      else if str_eqb s (u"rule") then Ok c_rule
      else Raise (KeyError ty)
  | JNull | JBool _ | JNum _ => Raise (KeyError ty)
  | JArr _ | JObj _ => Raise TypeError
  end.

(** [generic_to_node], lines 191-192. *)
Fixpoint generic_to_node (node_dict : json) : result node :=
  match node_dict with
  | JObj d =>
      ty <- getitem d (u"type") ;;
      conv <- TO_NODE_TYPES ty ;;
      match conv with
      | c_charset => to_charset d
      | c_keyframes => to_keyframes d
      | c_media => to_media_query generic_to_node d
      | c_rule => to_rule d
      end
  | _ => Raise TypeError
  end.

(** ** The entry points *)

(** [j[key]] on any value. *)
Definition subscript (j : json) (key : str) : result json :=
  match j with
  | JObj d => getitem d key
  | _ => Raise TypeError
  end.

Section EntryPoints.

(** The collaborator of lines 199-220: the node process that runs
    [css_to_json.js] on the contents, then [simplejson.loads] on what it
    printed; a non-zero return code is a [CalledProcessError]. *)
Variable css_to_json : str -> result json.

(** [format_css], lines 195-228. *)
Definition format_css (contents : str) (kw : kwargs) : result str :=
  out <- css_to_json contents ;;
  sheet <- subscript out (u"stylesheet") ;;
  rules_json <- subscript sheet (u"rules") ;;
  rules <- for_each_in generic_to_node rules_json ;;
  Ok (render kw rules).

(** [main], lines 231-236, from the contents of the file it is given to
    the text it prints: both options keep their default, and [print]
    ends the text with a newline. *)
Definition main (contents : str) : result str :=
  text <- format_css contents (Kwargs false false) ;;
  Ok (rstrip text ++ nl).

End EntryPoints.

(** A text given line by line, each line ended by ['\n']. *)
Definition text_of_lines (lines : list string) : str :=
  concat (map (fun line => u line ++ nl) lines).

(** ** What the properties are stated with *)

Definition no_linebreak (line : str) : Prop :=
  Forall (fun c => is_linebreak c = false) line.

(** Induction over nodes, through the rules of a media query. *)
Definition node_ind (P : node -> Prop)
  (HCharset : forall charset, P (Charset charset))
  (HKeyFrames : forall vendor name keyframes,
      P (KeyFrames vendor name keyframes))
  (HMediaQuery : forall media rules,
      Forall P rules -> P (MediaQuery media rules))
  (HRule : forall selectors properties, P (Rule selectors properties))
  : forall n, P n :=
  fix go (n : node) : P n :=
    match n with
    | Charset charset => HCharset charset
    | KeyFrames vendor name keyframes => HKeyFrames vendor name keyframes
    | MediaQuery media rules =>
        HMediaQuery media rules
          ((fix all (rs : list node) : Forall P rs :=
              match rs with
              | [] => Forall_nil P
              | r :: rs' => Forall_cons r (go r) (all rs')
              end) rules)
    | Rule selectors properties => HRule selectors properties
    end.

(** A rule without properties. *)
Definition is_empty_rule (n : node) : bool :=
  match n with
  | Rule _ [] => true
  | _ => false
  end.

(** The tree without its rules without properties, and nothing else
    removed: what [ignore_empty_rules] is said to leave. *)
Fixpoint without_empty_rules (n : node) : node :=
  match n with
  | MediaQuery media rules =>
      MediaQuery media
        (filter (fun r => negb (is_empty_rule r))
           (map without_empty_rules rules))
  | _ => n
  end.

Definition drop_empty_rules (rules : list node) : list node :=
  filter (fun r => negb (is_empty_rule r)) (map without_empty_rules rules).

(** The keyframes record of the scenario. *)
Definition spin_json : json :=
  JObj [(u"type", JStr (u"keyframes"));
        (u"name", JStr (u"spin"));
        (u"keyframes",
          JArr [JObj [(u"values", JArr [JStr (u"0%")]);
                      (u"declarations", JArr [])];
                JObj [(u"values", JArr [JStr (u"100%")]);
                      (u"declarations",
                        JArr [JObj [(u"type", JStr (u"declaration"));
                                    (u"property", JStr (u"transform"));
                                    (u"value",
                                      JStr (u"rotate(360deg)"))]])]])].

Definition spin_node : node :=
  KeyFrames [] (u"spin")
    [mkKeyFrame (u"0%") [];
     mkKeyFrame (u"100%")
       [mkProperty (u"transform") (u"rotate(360deg)")]].



(** A sheet whose rules are the given ones, as the parser prints it. *)
Definition stylesheet_of (rules : list json) : json :=
  JObj [(u"type", JStr (u"stylesheet"));
        (u"stylesheet", JObj [(u"rules", JArr rules)])].

Definition position_json (line0 column0 line1 column1 : Z) : json :=
  JObj [(u"start", JObj [(u"line", JNum line0); (u"column", JNum column0)]);
        (u"end", JObj [(u"line", JNum line1); (u"column", JNum column1)])].

(** The tree of the one-line sheet [a{color:red}]. *)
Definition a_red_json : json :=
  stylesheet_of
    [JObj [(u"type", JStr (u"rule"));
           (u"selectors", JArr [JStr (u"a")]);
           (u"declarations",
             JArr [JObj [(u"type", JStr (u"declaration"));
                         (u"property", JStr (u"color"));
                         (u"value", JStr (u"red"));
                         (u"position", position_json 1 3 1 12)]]);
           (u"position", position_json 1 1 1 13)]].

Definition a_red_node : node :=
  Rule (u"a") [mkProperty (u"color") (u"red")].

Definition declaration_json (p : Property) : json :=
  JObj [(u"type", JStr (u"declaration"));
        (u"property", JStr (name p));
        (u"value", JStr (value p))].

Definition rule_json (selectors : list str) (properties : list Property)
  : json :=
  JObj [(u"type", JStr (u"rule"));
        (u"selectors", JArr (map JStr selectors));
        (u"declarations", JArr (map declaration_json properties))].

(** Induction over the parser's tree, through lists and records. *)
Definition json_ind (P : json -> Prop)
  (HNull : P JNull)
  (HBool : forall b, P (JBool b))
  (HNum : forall n, P (JNum n))
  (HStr : forall s, P (JStr s))
  (HArr : forall items, Forall P items -> P (JArr items))
  (HObj : forall fields,
      Forall (fun kv => P (snd kv)) fields -> P (JObj fields))
  : forall j, P j :=
  fix go (j : json) : P j :=
    match j with
    | JNull => HNull
    | JBool b => HBool b
    | JNum n => HNum n
    | JStr s => HStr s
    | JArr items =>
        HArr items
          ((fix all (l : list json) : Forall P l :=
              match l with
              | [] => Forall_nil P
              | x :: l' => Forall_cons x (go x) (all l')
              end) items)
    | JObj fields =>
        HObj fields
          ((fix all (l : list (str * json))
              : Forall (fun kv => P (snd kv)) l :=
              match l with
              | [] => Forall_nil _
              | kv :: l' => Forall_cons kv (go (snd kv)) (all l')
              end) fields)
    end.

(** The keys a record of the given declared fields may hold. *)
Definition allowed (declared : list str) : list str :=
  declared ++ [u"position"; u"type"].

(** A failed key check carries a key set that is outside the allowed set
    it carries; this holds of every failure a converter lets through. *)
Definition sound_exn (e : exn) : Prop :=
  match e with
  | AssertionError (BadKeys present permitted) => ~ incl present permitted
  | _ => True
  end.

Definition sound {A} (r : result A) : Prop :=
  match r with
  | Raise e => sound_exn e
  | _ => True
  end.

(** The comment of [a { /* note */ color: red }], which the parser lists
    among the declarations of the rule. *)
Definition comment_json : json :=
  JObj [(u"type", JStr (u"comment")); (u"comment", JStr (u" note "))].

(** A declaration without type and with a field of its own. *)
Definition untyped_declaration_json : json :=
  JObj [(u"property", JStr (u"color")); (u"value", JStr (u"red"));
        (u"unexpected", JStr (u"x"))].

(** The rule of the scenario, with a field the schema does not list. *)
Definition unexpected_rule : dict :=
  [(u"type", JStr (u"rule"));
   (u"selectors", JArr [JStr (u"a")]);
   (u"declarations", JArr []);
   (u"unexpected", JStr (u"x"))].

(** A keyframes record without name whose one frame has a foreign key. *)
Definition nameless_keyframes : dict :=
  [(u"type", JStr (u"keyframes"));
   (u"keyframes", JArr [JObj [(u"bogus", JStr (u"x"))]])].

(** ** What the further properties are stated with *)

(** [indent] on a block that may be empty: nothing for the empty text. *)
Definition indent_block (text : str) : str :=
  if is_empty text then [] else indent text.

(** A text that is empty or ends a block or a statement: its last two
    characters are a closing brace or a semicolon, then ['\n']. *)
Definition ends_statement (text : str) : Prop :=
  text = []
  \/ exists body, text = body ++ u"}" ++ nl \/ text = body ++ u";" ++ nl.

Definition is_charset (n : node) : bool :=
  match n with
  | Charset _ => true
  | _ => false
  end.

(** The tree without its charset nodes, at any depth, and nothing else
    removed. *)
Fixpoint without_charsets (n : node) : node :=
  match n with
  | MediaQuery media rules =>
      MediaQuery media
        (filter (fun r => negb (is_charset r)) (map without_charsets rules))
  | _ => n
  end.

Definition drop_charsets (rules : list node) : list node :=
  filter (fun r => negb (is_charset r)) (map without_charsets rules).

(** A tree that holds no charset node and no rule without properties. *)
Fixpoint plain (n : node) : bool :=
  match n with
  | Charset _ => false
  | KeyFrames _ _ _ => true
  | MediaQuery _ rules => forallb plain rules
  | Rule _ properties => negb (is_empty properties)
  end.

(** The record of a frame and the record of a node, as the parser would
    give them: the joined selectors of a frame or of a rule as one item. *)
Definition keyframe_json (k : KeyFrame) : json :=
  JObj [(u"type", JStr (u"keyframe"));
        (u"values", JArr [JStr (values k)]);
        (u"declarations", JArr (map declaration_json (properties k)))].

Fixpoint node_json (n : node) : json :=
  match n with
  | Charset charset =>
      JObj [(u"type", JStr (u"charset")); (u"charset", JStr charset)]
  | KeyFrames vendor name keyframes =>
      JObj [(u"type", JStr (u"keyframes"));
            (u"name", JStr name);
            (u"vendor", JStr vendor);
            (u"keyframes", JArr (map keyframe_json keyframes))]
  | MediaQuery media rules =>
      JObj [(u"type", JStr (u"media"));
            (u"media", JStr media);
            (u"rules", JArr (map node_json rules))]
  | Rule selectors properties =>
      JObj [(u"type", JStr (u"rule"));
            (u"selectors", JArr [JStr selectors]);
            (u"declarations", JArr (map declaration_json properties))]
  end.

(** The type and the declared fields of the record a node is built from. *)
Definition type_of (n : node) : str :=
  match n with
  | Charset _ => u"charset"
  | KeyFrames _ _ _ => u"keyframes"
  | MediaQuery _ _ => u"media"
  | Rule _ _ => u"rule"
  end.

Definition declared_of (n : node) : list str :=
  match n with
  | Charset _ => [u"charset"]
  | KeyFrames _ _ _ => [u"vendor"; u"name"; u"keyframes"]
  | MediaQuery _ _ => [u"media"; u"rules"]
  | Rule _ _ => [u"selectors"; u"declarations"]
  end.

(** The fields a converter cannot do without. *)
Definition required_of (n : node) : list str :=
  match n with
  | Charset _ => [u"charset"]
  | KeyFrames _ _ _ => [u"name"; u"keyframes"]
  | MediaQuery _ _ => [u"media"; u"rules"]
  | Rule _ _ => [u"selectors"; u"declarations"]
  end.

(** The bindings of a record without those of [position], each value
    passed through [f]. *)
Definition strip_fields (f : json -> json) (d : dict) : dict :=
  filter (fun kv => negb (str_eqb (fst kv) (u"position")))
    (map (fun kv => (fst kv, f (snd kv))) d).

(** The tree without any [position] binding, at any depth. *)
Fixpoint without_positions (j : json) : json :=
  match j with
  | JArr items => JArr (map without_positions items)
  | JObj fields => JObj (strip_fields without_positions fields)
  | _ => j
  end.

(** The formatter, line by line: the lines a node is said to render to,
    without their newlines, a nested block four spaces further in. *)
Definition unlines (lines : list str) : str :=
  concat (map (fun line => line ++ nl) lines).

Definition indented (lines : list str) : list str :=
  if is_empty lines then [[]]
  else map (fun line => u"    " ++ line) lines.

Definition Property_line (p : Property) : str :=
  u"    " ++ name p ++ u": " ++ value p ++ u";".

Definition KeyFrame_lines (k : KeyFrame) : list str :=
  (values k ++ u" {") :: map Property_line (properties k) ++ [u"}"].

Fixpoint lines_of (kw : kwargs) (n : node) : list str :=
  match n with
  | Charset charset =>
      if ignore_charset kw then [] else [u"@charset " ++ charset ++ u";"]
  | KeyFrames vendor name keyframes =>
      (u"@" ++ vendor ++ u"keyframes " ++ name ++ u" {")
      :: indented (concat (map KeyFrame_lines keyframes)) ++ [u"}"]
  | MediaQuery media rules =>
      (u"@media " ++ media ++ u" {")
      :: indented (concat (map (lines_of kw) rules)) ++ [u"}"]
  | Rule selectors properties =>
      if ignore_empty_rules kw && is_empty properties then []
      else (selectors ++ u" {") :: map Property_line properties ++ [u"}"]
  end.

(** A text without line boundary, and a tree all of whose texts are. *)
Definition one_line (s : str) : bool :=
  forallb (fun c => negb (is_linebreak c)) s.

Definition one_line_property (p : Property) : bool :=
  one_line (name p) && one_line (value p).

Definition one_line_keyframe (k : KeyFrame) : bool :=
  one_line (values k) && forallb one_line_property (properties k).

Fixpoint one_line_node (n : node) : bool :=
  match n with
  | Charset charset => one_line charset
  | KeyFrames vendor name keyframes =>
      one_line vendor && one_line name
      && forallb one_line_keyframe keyframes
  | MediaQuery media rules => one_line media && forallb one_line_node rules
  | Rule selectors properties =>
      one_line selectors && forallb one_line_property properties
  end.





(** A media query that holds two rules, as a record with its rules before
    its position and its media. *)
Definition print_media : dict :=
  [(u"type", JStr (u"media"));
   (u"rules",
     JArr [rule_json [u"a"; u".b"] [mkProperty (u"color") (u"red")];
           rule_json [u"a"] []]);
   (u"position", position_json 1 1 3 2);
   (u"media", JStr (u"print"))].

(** The exceptions that are no failed assertion. *)
Definition is_assertion (e : exn) : bool :=
  match e with
  | AssertionError _ => true
  | _ => false
  end.

(** Two exceptions that are the same but for what an assertion carries,
    and two outcomes of the same kind: the same value, such exceptions, or
    both outside the model. *)
Definition alike_exn (e e' : exn) : Prop :=
  match e, e' with
  | AssertionError _, AssertionError _ => True
  | _, _ => e = e'
  end.

Definition alike {A} (r r' : result A) : Prop :=
  match r, r' with
  | Ok a, Ok a' => a = a'
  | Raise e, Raise e' => alike_exn e e'
  | Unmodelled, Unmodelled => True
  | _, _ => False
  end.

(** * Properties *)

(** ** Lines and indentation *)

Lemma splitlines_linebreak (c : char) (rest : str) :
  is_linebreak c = true ->
  splitlines (c :: rest) =
    [] :: match rest with
          | c' :: _ =>
              if (c =? CR)%N && (c' =? LF)%N then tl (splitlines rest)
              else splitlines rest
          | [] => []
          end.
Proof.
  intros Hc. cbn [splitlines]. rewrite Hc.
  destruct rest as [|c' rest']; [reflexivity|].
  destruct ((c =? CR)%N && (c' =? LF)%N) eqn:E; [|reflexivity].
  apply andb_prop in E as [_ E']. apply N.eqb_eq in E'. subst c'.
  f_equal. cbn. destruct rest'; reflexivity.
Qed.

Lemma splitlines_LF (rest : str) :
  splitlines (LF :: rest) = [] :: splitlines rest.
Proof. destruct rest; reflexivity. Qed.

Lemma splitlines_nonempty (text : str) :
  text <> [] -> splitlines text <> [].
Proof.
  destruct text as [|c rest]; [congruence|]. intros _. cbn [splitlines].
  destruct (is_linebreak c); [discriminate|].
  destruct (splitlines rest); discriminate.
Qed.

(** No line of [splitlines] holds a line boundary. *)
Lemma splitlines_no_linebreak (text : str) :
  Forall no_linebreak (splitlines text).
Proof.
  induction text as [|c rest IH]; [constructor|].
  destruct (is_linebreak c) eqn:Hc.
  - rewrite (splitlines_linebreak c rest Hc). constructor; [constructor|].
    destruct rest as [|c' rest']; [constructor|].
    destruct ((c =? CR)%N && (c' =? LF)%N); [|exact IH].
    destruct (splitlines (c' :: rest')); [constructor|].
    now inversion IH.
  - cbn [splitlines]. rewrite Hc.
    destruct (splitlines rest) as [|line lines].
    + repeat constructor. exact Hc.
    + inversion IH; subst. constructor; [constructor|]; assumption.
Qed.

(** A line without boundary, ended by ['\n'], is split off whole. *)
Lemma splitlines_line (line rest : str) :
  no_linebreak line ->
  splitlines (line ++ nl ++ rest) = line :: splitlines rest.
Proof.
  induction 1 as [|c line Hc _ IH]; cbn [app].
  - apply splitlines_LF.
  - cbn [splitlines]. rewrite Hc. now rewrite IH.
Qed.

Lemma splitlines_concat (lines : list str) :
  Forall no_linebreak lines ->
  splitlines (concat (map (fun line => line ++ nl) lines)) = lines.
Proof.
  induction 1 as [|line lines Hl _ IH]; [reflexivity|].
  cbn [map concat]. rewrite <- app_assoc, splitlines_line by assumption.
  now rewrite IH.
Qed.

Lemma join_nl (lines : list str) :
  lines <> [] ->
  join nl lines ++ nl = concat (map (fun line => line ++ nl) lines).
Proof.
  induction lines as [|l1 lines IH]; [congruence|]. intros _.
  destruct lines as [|l2 lines].
  - cbn. now rewrite app_nil_r.
  - change (join nl (l1 :: l2 :: lines))
      with (l1 ++ nl ++ join nl (l2 :: lines)).
    rewrite <- !app_assoc, IH by discriminate.
    cbn [map concat]. now rewrite <- !app_assoc.
Qed.

Lemma no_linebreak_indented (line : str) :
  no_linebreak line -> no_linebreak (u"    " ++ line).
Proof. intros H. repeat constructor. exact H. Qed.

(** [indent] line by line: every line of a text that is not empty gets
    four spaces in front and ['\n'] behind. *)
Lemma indent_lines (text : str) :
  text <> [] ->
  indent text =
    concat (map (fun line => (u"    " ++ line) ++ nl) (splitlines text)).
Proof.
  intros H. unfold indent. cbv zeta. rewrite join_nl.
  - now rewrite map_map.
  - intros E. apply map_eq_nil in E. now apply splitlines_nonempty in E.
Qed.

Lemma splitlines_indent (text : str) :
  text <> [] ->
  splitlines (indent text) =
    map (fun line => u"    " ++ line) (splitlines text).
Proof.
  intros H. rewrite indent_lines by assumption.
  rewrite <- (map_map (fun line => u"    " ++ line)
                      (fun line => line ++ nl)).
  apply splitlines_concat.
  apply Forall_map. eapply Forall_impl; [|apply splitlines_no_linebreak].
  apply no_linebreak_indented.
Qed.

Lemma indent_not_empty (text : str) : indent text <> [].
Proof. unfold indent. cbv zeta. intros E. now apply app_eq_nil in E. Qed.

(** C2: indenting a text that ends in a newline gives a text that ends in
    exactly one newline (the character before it is no line boundary), whose
    lines are the lines of the text, each behind four spaces: as many lines
    as before, no blank line added or lost, also when indenting again. *)
Theorem indent_trailing_newline (t : str) :
  let text := t ++ nl in
  (exists body c,
      indent text = body ++ [c] ++ nl /\ is_linebreak c = false)
  /\ splitlines (indent text)
     = map (fun line => u"    " ++ line) (splitlines text)
  /\ length (splitlines (indent text)) = length (splitlines text)
  /\ length (splitlines (indent (indent text))) = length (splitlines text).
Proof.
  intros text.
  assert (Hne : text <> []) by (subst text; now destruct t).
  assert (Hsplit := splitlines_indent text Hne).
  split; [|split; [exact Hsplit|split]].
  - rewrite (indent_lines text Hne).
    destruct (exists_last (splitlines_nonempty text Hne)) as (init & l & El).
    assert (Hl : no_linebreak (u"    " ++ l)).
    { apply no_linebreak_indented.
      pose proof (splitlines_no_linebreak text) as HF. rewrite El in HF.
      apply Forall_app in HF as [_ HF]. now inversion HF. }
    destruct (@exists_last _ (u"    " ++ l)) as (pre & c & Ec);
      [discriminate|].
    rewrite Ec in Hl. apply Forall_app in Hl as [_ Hl].
    exists (concat (map (fun line => (u"    " ++ line) ++ nl) init) ++ pre), c.
    split; [|now inversion Hl].
    rewrite El, map_app, concat_app. cbn [map concat].
    rewrite Ec, app_nil_r, <- !app_assoc. reflexivity.
  - rewrite Hsplit. apply length_map.
  - rewrite (splitlines_indent (indent text) (indent_not_empty text)).
    rewrite Hsplit, !length_map. reflexivity.
Qed.

(** C10: the empty text indents to one newline, so a media query without
    rules and a keyframes block without frames hold one blank line between
    their braces. *)
Theorem empty_block_blank_line (kw : kwargs) (media vendor name : str) :
  indent [] = nl
  /\ to_text kw (MediaQuery media [])
     = u"@media " ++ media ++ u" {" ++ nl ++ nl ++ u"}" ++ nl
  /\ to_text kw (KeyFrames vendor name [])
     = u"@" ++ vendor ++ u"keyframes " ++ name ++ u" {" ++ nl ++ nl
       ++ u"}" ++ nl.
Proof. repeat split. Qed.

(** C7: a charset node renders to the empty text when [ignore_charset] is
    set, and otherwise to [@charset <value>;] and a newline, with the value
    as the record gave it. *)
Theorem charset_rendering (c : str) (ier : bool) :
  to_text (Kwargs true ier) (Charset c) = []
  /\ to_text (Kwargs false ier) (Charset c)
     = u"@charset " ++ c ++ u";" ++ nl
  /\ generic_to_node (JObj [(u"type", JStr (u"charset"));
                            (u"charset", JStr c)])
     = Ok (Charset c).
Proof. repeat split. Qed.

(** ** Suppressing empty rules *)

Section EmptyRules.

Variable ic : bool.

Lemma is_empty_rule_without (n : node) :
  is_empty_rule (without_empty_rules n) = is_empty_rule n.
Proof. now destruct n. Qed.

Lemma render_drop_step (rules : list node) :
  Forall (fun n => to_text (Kwargs ic true) n =
                   if is_empty_rule n then []
                   else to_text (Kwargs ic false) (without_empty_rules n))
    rules ->
  render (Kwargs ic true) rules
  = render (Kwargs ic false) (drop_empty_rules rules).
Proof.
  unfold render, drop_empty_rules.
  induction 1 as [|n rules Hn _ IH]; [reflexivity|].
  cbn [map concat filter]. rewrite Hn, IH, is_empty_rule_without.
  now destruct (is_empty_rule n).
Qed.

Lemma to_text_drop (n : node) :
  to_text (Kwargs ic true) n =
    if is_empty_rule n then []
    else to_text (Kwargs ic false) (without_empty_rules n).
Proof.
  induction n as [c|v nm kfs|media rules IH|sel props] using node_ind.
  - reflexivity.
  - reflexivity.
  - apply render_drop_step in IH. unfold render, drop_empty_rules in IH.
    cbn [is_empty_rule without_empty_rules to_text]. now rewrite IH.
  - now destruct props.
Qed.

Lemma render_drop (rules : list node) :
  render (Kwargs ic true) rules
  = render (Kwargs ic false) (drop_empty_rules rules).
Proof.
  apply render_drop_step, Forall_forall. intros n _. apply to_text_drop.
Qed.

Lemma to_text_drop_empty (n : node) :
  to_text (Kwargs ic true) n = [] <->
  is_empty_rule n = true \/ (ic = true /\ exists c, n = Charset c).
Proof.
  split.
  - destruct n as [c|v nm kfs|media rules|sel props].
    + cbn. unfold Charset_to_text. cbn. destruct ic; [eauto|discriminate].
    + discriminate.
    + discriminate.
    + destruct props as [|p props]; [now left|].
      cbn. unfold Rule_to_text. cbn. intros E.
      apply app_eq_nil in E as [_ E]. discriminate.
  - intros [H|[H [c ->]]].
    + destruct n as [| | |sel [|]]; try discriminate. reflexivity.
    + now rewrite H.
Qed.

End EmptyRules.

(** C3: with [ignore_empty_rules] set, what is rendered is the rendering,
    without the flag, of the tree from which exactly the rules without
    properties were taken; nothing else renders to the empty text because
    of the flag, keyframes blocks and frames without content still render;
    without the flag a rule without properties renders as its selectors
    and an empty block. *)
Theorem ignore_empty_rules_exact (ic : bool) :
  (forall rules,
      render (Kwargs ic true) rules
      = render (Kwargs ic false) (drop_empty_rules rules))
  /\ (forall n,
        to_text (Kwargs ic true) n = [] <->
        is_empty_rule n = true \/ (ic = true /\ exists c, n = Charset c))
  /\ (forall vendor name keyframes,
        to_text (Kwargs ic true) (KeyFrames vendor name keyframes)
        = to_text (Kwargs ic false) (KeyFrames vendor name keyframes))
  /\ (forall vendor name,
        to_text (Kwargs ic true)
          (KeyFrames vendor name [mkKeyFrame (u"0%") []])
        = u"@" ++ vendor ++ u"keyframes " ++ name ++ u" {" ++ nl
          ++ u"    0% {" ++ nl ++ u"    }" ++ nl ++ u"}" ++ nl)
  /\ (forall vals,
        KeyFrame_to_text (mkKeyFrame vals []) = vals ++ u" {" ++ nl
                                                ++ u"}" ++ nl)
  /\ (forall selectors,
        to_text (Kwargs ic true) (Rule selectors []) = [])
  /\ (forall selectors,
        to_text (Kwargs ic false) (Rule selectors [])
        = selectors ++ u" {" ++ nl ++ u"}" ++ nl).
Proof.
  split; [apply render_drop|].
  split; [apply to_text_drop_empty|].
  repeat split.
Qed.

(** ** Running the builder *)

Lemma str_eqb_eq (a b : str) : str_eqb a b = true <-> a = b.
Proof.
  unfold str_eqb. destruct (list_eq_dec N.eq_dec a b); split;
    congruence.
Qed.

Lemma str_eqb_neq (a b : str) : str_eqb a b = false <-> a <> b.
Proof.
  unfold str_eqb. destruct (list_eq_dec N.eq_dec a b); split;
    congruence.
Qed.

(** Reading a field, then using it: the shape the source has. *)
Lemma getitem_with_bind {A} (k : json -> result A) (d : dict) (key : str) :
  getitem_with k d key = (v <- getitem d key ;; k v).
Proof.
  unfold getitem. induction d as [|[key' v] d IH]; [reflexivity|].
  cbn [getitem_with]. now destruct (str_eqb key' key).
Qed.

Lemma getitem_missing (d : dict) (key : str) :
  ~ In key (keys d) -> getitem d key = Raise (KeyError (JStr key)).
Proof.
  unfold getitem. induction d as [|[key' v] d IH]; [reflexivity|].
  cbn [keys map fst In getitem_with]. intros H.
  destruct (str_eqb key' key) eqn:E.
  - apply str_eqb_eq in E. tauto.
  - apply IH. tauto.
Qed.

Lemma for_each_Forall2 {A B} (f : A -> result B) (items : list A)
  (out : list B) :
  for_each f items = Ok out <-> Forall2 (fun x y => f x = Ok y) items out.
Proof.
  revert out. induction items as [|x xs IH]; intros out; cbn [for_each].
  - split; [intros [= <-]; constructor|now inversion 1].
  - split.
    + destruct (f x) as [y| |] eqn:Ex; try discriminate. cbn [bind].
      destruct (for_each f xs) as [ys| |]; try discriminate.
      intros [= <-]. constructor; [exact Ex|now apply IH].
    + inversion 1 as [|? y ? ys Hx Hxs]; subst. rewrite Hx. cbn [bind].
      apply IH in Hxs. now rewrite Hxs.
Qed.

Lemma for_each_app {A B} (f : A -> result B) (xs ys : list A) :
  for_each f (xs ++ ys) =
    (a <- for_each f xs ;; b <- for_each f ys ;; Ok (a ++ b)).
Proof.
  induction xs as [|x xs IH]; cbn [app for_each].
  - now destruct (for_each f ys).
  - destruct (f x); [|reflexivity|reflexivity]. cbn [bind]. rewrite IH.
    destruct (for_each f xs); [|reflexivity|reflexivity]. cbn [bind].
    now destruct (for_each f ys).
Qed.

(** [generic_to_node] as lines 191-192 and 165-170 read. *)
Lemma generic_to_node_eq (d : dict) :
  generic_to_node (JObj d) =
    (ty <- getitem d (u"type") ;;
     conv <- TO_NODE_TYPES ty ;;
     match conv with
     | c_charset => to_charset d
     | c_keyframes => to_keyframes d
     | c_media =>
         _check_keys d [u"media"; u"rules"] ;;
         rules_json <- getitem d (u"rules") ;;
         rules <- for_each_in generic_to_node rules_json ;;
         media <- getitem d (u"media") ;;
         media <- as_text media ;;
         Ok (MediaQuery media rules)
     | c_rule => to_rule d
     end).
Proof.
  cbn [generic_to_node].
  destruct (getitem d (u"type")) as [ty| |]; cbn [bind]; try reflexivity.
  destruct (TO_NODE_TYPES ty) as [[]| |]; cbn [bind]; try reflexivity.
  unfold to_media_query.
  destruct (_check_keys d [u"media"; u"rules"]); cbn [bind];
    try reflexivity.
  rewrite !getitem_with_bind.
  destruct (getitem d (u"rules")) as [rules_json| |]; cbn [bind];
    try reflexivity.
  destruct (for_each_in generic_to_node rules_json); cbn [bind];
    try reflexivity.
  now destruct (getitem d (u"media")).
Qed.

(** C4: the keyframes record named spin, which has no vendor, builds to a
    keyframes node with the empty vendor and renders to the block of the
    scenario, whatever the options. *)
Theorem spin_scenario (kw : kwargs) :
  generic_to_node spin_json = Ok spin_node
  /\ to_text kw spin_node
     = text_of_lines ["@keyframes spin {";
                      "    0% {";
                      "    }";
                      "    100% {";
                      "        transform: rotate(360deg);";
                      "    }";
                      "}"]%string.
Proof. split; reflexivity. Qed.

(** ** Unknown node types *)




(** ** The entry point and the wrapper *)

(** C1, as stated, fails: for the sheet [a{color:red}] with both options
    off, [format_css] returns the rendering of its one rule with the final
    newline still there, which is not the stripped text. *)
Lemma format_css_keeps_trailing_whitespace :
  format_css (fun _ => Ok a_red_json) (u"a{color:red}") (Kwargs false false)
  = Ok (text_of_lines ["a {"; "    color: red;"; "}"]%string)
  /\ render (Kwargs false false) [a_red_node]
     = text_of_lines ["a {"; "    color: red;"; "}"]%string
  /\ format_css (fun _ => Ok a_red_json) (u"a{color:red}")
       (Kwargs false false)
     <> Ok (rstrip (render (Kwargs false false) [a_red_node])).
Proof. repeat split. discriminate. Qed.

(** C1, amended: when the parser returns a sheet whose rules build, node by
    node, [format_css] returns the renderings of the nodes, concatenated in
    the order of the sheet and not stripped; [main] strips the trailing
    whitespace of that whole text once and prints it. *)
Theorem format_css_concatenates (css_to_json : str -> result json)
  (contents : str) (kw : kwargs) (out sheet : json)
  (rules_json : list json) (rules : list node) :
  css_to_json contents = Ok out ->
  subscript out (u"stylesheet") = Ok sheet ->
  subscript sheet (u"rules") = Ok (JArr rules_json) ->
  Forall2 (fun j n => generic_to_node j = Ok n) rules_json rules ->
  format_css css_to_json contents kw = Ok (concat (map (to_text kw) rules))
  /\ main css_to_json contents
     = Ok (rstrip (concat (map (to_text (Kwargs false false)) rules))
           ++ nl).
Proof.
  intros Hout Hsheet Hrules Hbuild. apply for_each_Forall2 in Hbuild.
  unfold main, format_css.
  rewrite Hout. cbn [bind]. rewrite Hsheet. cbn [bind].
  rewrite Hrules. cbn [bind for_each_in]. rewrite Hbuild. now cbn.
Qed.

Lemma format_css_concatenates_witness :
  format_css (fun _ => Ok a_red_json) (u"a{color:red}") (Kwargs false true)
  = Ok (concat (map (to_text (Kwargs false true)) [a_red_node]))
  /\ main (fun _ => Ok a_red_json) (u"a{color:red}")
     = Ok (rstrip (concat (map (to_text (Kwargs false false)) [a_red_node]))
           ++ nl).
Proof.
  eapply (format_css_concatenates (fun _ => Ok a_red_json) (u"a{color:red}")).
  - reflexivity.
  - reflexivity.
  - reflexivity.
  - repeat constructor.
Defined.

(** ** Order *)

Lemma to_property_declaration_json (p : Property) :
  to_property (declaration_json p) = Ok p.
Proof. now destruct p. Qed.

Lemma for_each_map_Ok {A B} (f : A -> result B) (g : B -> A)
  (items : list B) :
  (forall y, f (g y) = Ok y) -> for_each f (map g items) = Ok items.
Proof.
  intros H. induction items as [|y ys IH]; [reflexivity|].
  cbn [map for_each]. now rewrite H, IH.
Qed.



Lemma bind_Ok {A B} (r : result A) (k : A -> result B) (b : B) :
  (x <- r ;; k x) = Ok b -> exists a, r = Ok a /\ k a = Ok b.
Proof. destruct r as [a| |]; try discriminate. intros H. now exists a. Qed.
















(** ** The schema check *)

Lemma subset_incl (a b : list str) : subset a b = true <-> incl a b.
Proof.
  unfold subset, incl. rewrite forallb_forall.
  split; intros H x Hx; specialize (H x Hx).
  - apply existsb_exists in H as (y & Hy & E).
    apply str_eqb_eq in E. now subst y.
  - apply existsb_exists. exists x. split; [exact H|now apply str_eqb_eq].
Qed.

Lemma subset_not_incl (a b : list str) : subset a b = false <-> ~ incl a b.
Proof.
  rewrite <- subset_incl. destruct (subset a b); split; congruence.
Qed.

Lemma check_keys_passes (d : dict) (declared : list str) :
  incl (keys d) (allowed declared) -> _check_keys d declared = Ok tt.
Proof.
  intros H. apply subset_incl in H. unfold _check_keys. cbv zeta.
  fold (allowed declared). now rewrite H.
Qed.

Lemma check_keys_fails (d : dict) (declared : list str) :
  ~ incl (keys d) (allowed declared) ->
  _check_keys d declared
  = Raise (AssertionError (BadKeys (keys d) (allowed declared))).
Proof.
  intros H. apply subset_not_incl in H. unfold _check_keys. cbv zeta.
  fold (allowed declared). now rewrite H.
Qed.

Create HintDb sound.

Lemma sound_bind {A B} (r : result A) (k : A -> result B) :
  sound r -> (forall a, sound (k a)) -> sound (x <- r ;; k x).
Proof. destruct r; cbn; auto. Qed.

Lemma sound_check_keys (d : dict) (declared : list str) :
  sound (_check_keys d declared).
Proof.
  unfold _check_keys. cbv zeta.
  destruct (subset _ _) eqn:E; cbn; [exact I|].
  now apply subset_not_incl.
Qed.

Lemma sound_getitem_with {A} (k : json -> result A) (d : dict) (key : str) :
  Forall (fun kv => sound (k (snd kv))) d -> sound (getitem_with k d key).
Proof.
  induction 1 as [|[key' v] d Hv _ IH]; cbn [getitem_with]; [exact I|].
  now destruct (str_eqb key' key).
Qed.

Lemma sound_getitem_with_all {A} (k : json -> result A) (d : dict)
  (key : str) :
  (forall v, sound (k v)) -> sound (getitem_with k d key).
Proof.
  intros H. apply sound_getitem_with, Forall_forall. intros kv _. apply H.
Qed.

Lemma sound_getitem (d : dict) (key : str) : sound (getitem d key).
Proof. apply sound_getitem_with_all. intros v. exact I. Qed.

Lemma sound_for_each {A B} (f : A -> result B) (items : list A) :
  Forall (fun x => sound (f x)) items -> sound (for_each f items).
Proof.
  induction 1 as [|x xs Hx _ IH]; cbn [for_each]; [exact I|].
  apply sound_bind; [exact Hx|]. intros y.
  apply sound_bind; [exact IH|]. intros ys. exact I.
Qed.

Lemma sound_for_each_in {B} (f : json -> result B) (v : json) :
  (forall x, sound (f x)) -> sound (for_each_in f v).
Proof.
  intros H. destruct v; cbn; try exact I.
  apply sound_for_each, Forall_forall. intros x _. apply H.
Qed.

Lemma sound_as_text (v : json) : sound (as_text v).
Proof. now destruct v. Qed.

Lemma sound_join_item (v : json) : sound (join_item v).
Proof. now destruct v. Qed.

#[local] Hint Resolve sound_check_keys sound_getitem sound_as_text
  sound_join_item sound_for_each_in sound_getitem_with_all : sound.

Ltac sound_steps :=
  repeat (apply sound_bind; [|intros ?]); auto with sound; try exact I.

Lemma sound_comma_join (v : json) : sound (comma_join v).
Proof. unfold comma_join. sound_steps. Qed.

Lemma sound_to_property (j : json) : sound (to_property j).
Proof.
  destruct j; cbn [to_property]; try exact I. sound_steps.
  now destruct (is_text _ _).
Qed.

#[local] Hint Resolve sound_comma_join sound_to_property : sound.

Lemma sound_to_keyframe (j : json) : sound (to_keyframe j).
Proof. destruct j; cbn [to_keyframe]; try exact I. sound_steps. Qed.

#[local] Hint Resolve sound_to_keyframe : sound.

Lemma sound_to_charset (d : dict) : sound (to_charset d).
Proof. unfold to_charset. sound_steps. Qed.

Lemma sound_to_keyframes (d : dict) : sound (to_keyframes d).
Proof. unfold to_keyframes. cbv zeta. sound_steps. Qed.

Lemma sound_to_rule (d : dict) : sound (to_rule d).
Proof. unfold to_rule. sound_steps. Qed.

Lemma sound_to_media_query (g : json -> result node) (d : dict) :
  Forall (fun kv => sound (for_each_in g (snd kv))) d ->
  sound (to_media_query g d).
Proof.
  intros H. unfold to_media_query. sound_steps.
  now apply sound_getitem_with.
Qed.

Lemma sound_generic_to_node_both (j : json) :
  sound (generic_to_node j) /\ sound (for_each_in generic_to_node j).
Proof.
  induction j as [|b|n|s|items IH|fields IH] using json_ind;
    try (split; exact I).
  - split; [exact I|]. cbn [for_each_in]. apply sound_for_each.
    eapply Forall_impl; [|exact IH]. now intros x [Hx _].
  - split; [|exact I]. cbn [generic_to_node].
    apply sound_bind; [apply sound_getitem|]. intros ty.
    apply sound_bind; [destruct ty; cbn; try exact I;
                       repeat destruct (str_eqb _ _); exact I|].
    intros [].
    + apply sound_to_charset.
    + apply sound_to_keyframes.
    + apply sound_to_media_query.
      eapply Forall_impl; [|exact IH]. now intros kv [_ H].
    + apply sound_to_rule.
Qed.

Lemma sound_generic_to_node (j : json) : sound (generic_to_node j).
Proof. apply sound_generic_to_node_both. Qed.

Lemma is_text_false (v : json) (s : str) :
  v <> JStr s -> is_text v s = false.
Proof.
  destruct v as [| | |s'| |]; try reflexivity. intros H. cbn [is_text].
  apply str_eqb_neq. congruence.
Qed.

Lemma is_text_true (s : str) : is_text (JStr s) s = true.
Proof. now apply str_eqb_eq. Qed.

Ltac by_soundness H lemma :=
  let S := fresh "S" in
  pose proof lemma as S; rewrite H in S; exact S.

(** C5, as stated, fails: a record among the declarations whose type is
    not [declaration] fails with an assertion that carries its type, not
    the two key sets; and a declaration record with a foreign key and no
    type fails with a key error, not with an assertion. *)
Lemma type_mismatch_carries_type_only :
  to_property comment_json
  = Raise (AssertionError (BadType (JStr (u"comment"))))
  /\ (forall present permitted,
        to_property comment_json
        <> Raise (AssertionError (BadKeys present permitted)))
  /\ subset [u"property"; u"value"; u"unexpected"]
       (allowed [u"property"; u"value"]) = false
  /\ to_property untyped_declaration_json
     = Raise (KeyError (JStr (u"type"))).
Proof. repeat split. intros present permitted. discriminate. Qed.

(** C5, amended: the key check of a converter fails, with an assertion
    that carries the key set of the record and the allowed key set, exactly
    when the keys of the record are not within the declared fields of its
    kind plus [position] and [type]; [to_charset], [to_keyframe],
    [to_keyframes], [to_media_query] and [to_rule] run it first, and
    [to_property] once the type of the record has been read and found to
    be [declaration]; a declaration record of any other type fails with an
    assertion that carries that type only; and whatever key sets a failure
    of the dispatch carries, the first is not within the second. *)
Theorem schema_violation_exact :
  (forall d declared,
      ~ incl (keys d) (allowed declared) <->
      _check_keys d declared
      = Raise (AssertionError (BadKeys (keys d) (allowed declared))))
  /\ (forall d,
        ~ incl (keys d) (allowed [u"charset"]) <->
        to_charset d
        = Raise (AssertionError
                   (BadKeys (keys d) (allowed [u"charset"]))))
  /\ (forall d,
        ~ incl (keys d) (allowed [u"declarations"; u"values"]) <->
        to_keyframe (JObj d)
        = Raise (AssertionError
                   (BadKeys (keys d)
                      (allowed [u"declarations"; u"values"]))))
  /\ (forall d,
        ~ incl (keys d) (allowed [u"vendor"; u"name"; u"keyframes"]) <->
        to_keyframes d
        = Raise (AssertionError
                   (BadKeys (keys d)
                      (allowed [u"vendor"; u"name"; u"keyframes"]))))
  /\ (forall d,
        ~ incl (keys d) (allowed [u"media"; u"rules"]) <->
        to_media_query generic_to_node d
        = Raise (AssertionError
                   (BadKeys (keys d) (allowed [u"media"; u"rules"]))))
  /\ (forall d,
        ~ incl (keys d) (allowed [u"selectors"; u"declarations"]) <->
        to_rule d
        = Raise (AssertionError
                   (BadKeys (keys d)
                      (allowed [u"selectors"; u"declarations"]))))
  /\ (forall d,
        getitem d (u"type") = Ok (JStr (u"declaration")) ->
        (~ incl (keys d) (allowed [u"property"; u"value"]) <->
         to_property (JObj d)
         = Raise (AssertionError
                    (BadKeys (keys d) (allowed [u"property"; u"value"])))))
  /\ (forall d ty,
        getitem d (u"type") = Ok ty ->
        ty <> JStr (u"declaration") ->
        to_property (JObj d) = Raise (AssertionError (BadType ty)))
  /\ (forall j present permitted,
        generic_to_node j
        = Raise (AssertionError (BadKeys present permitted)) ->
        ~ incl present permitted).
Proof.
  repeat apply conj.
  - intros d declared. split; [apply check_keys_fails|].
    intros H. by_soundness H (sound_check_keys d declared).
  - intros d. split.
    + intros H. unfold to_charset. now rewrite (check_keys_fails _ _ H).
    + intros H. by_soundness H (sound_to_charset d).
  - intros d. split.
    + intros H. cbn [to_keyframe]. now rewrite (check_keys_fails _ _ H).
    + intros H. by_soundness H (sound_to_keyframe (JObj d)).
  - intros d. split.
    + intros H. unfold to_keyframes. now rewrite (check_keys_fails _ _ H).
    + intros H. by_soundness H (sound_to_keyframes d).
  - intros d. split.
    + intros H. unfold to_media_query.
      now rewrite (check_keys_fails _ _ H).
    + intros H.
      assert (S : sound (to_media_query generic_to_node d)).
      { apply sound_to_media_query, Forall_forall. intros kv _.
        apply sound_generic_to_node_both. }
      rewrite H in S. exact S.
  - intros d. split.
    + intros H. unfold to_rule. now rewrite (check_keys_fails _ _ H).
    + intros H. by_soundness H (sound_to_rule d).
  - intros d Hty. split.
    + intros H. cbn [to_property]. rewrite Hty. cbn [bind].
      rewrite is_text_true. cbn [bind].
      now rewrite (check_keys_fails _ _ H).
    + intros H. by_soundness H (sound_to_property (JObj d)).
  - intros d ty Hty Hne. cbn [to_property]. rewrite Hty. cbn [bind].
    now rewrite (is_text_false _ _ Hne).
  - intros j present permitted H. by_soundness H (sound_generic_to_node j).
Qed.

Lemma schema_violation_exact_witness :
  to_rule unexpected_rule
  = Raise (AssertionError
             (BadKeys [u"type"; u"selectors"; u"declarations";
                       u"unexpected"]
                [u"selectors"; u"declarations"; u"position"; u"type"])).
Proof.
  apply schema_violation_exact.
  apply subset_not_incl. reflexivity.
Defined.

(** ** Missing fields *)

(** C9, as stated, fails: the keys of this record are within the allowed
    set, its required name is missing, its own key check passes, and yet
    its conversion ends in the assertion of its frame, with key sets, and
    not in a key error. *)
Lemma missing_name_reports_frame_keys :
  subset (keys nameless_keyframes)
    (allowed [u"vendor"; u"name"; u"keyframes"]) = true
  /\ existsb (str_eqb (u"name")) (keys nameless_keyframes) = false
  /\ _check_keys nameless_keyframes [u"vendor"; u"name"; u"keyframes"]
     = Ok tt
  /\ to_keyframes nameless_keyframes
     = Raise (AssertionError
                (BadKeys [u"bogus"]
                   (allowed [u"declarations"; u"values"])))
  /\ generic_to_node (JObj nameless_keyframes)
     = Raise (AssertionError
                (BadKeys [u"bogus"]
                   (allowed [u"declarations"; u"values"])))
  /\ generic_to_node (JObj nameless_keyframes)
     <> Raise (KeyError (JStr (u"name"))).
Proof. repeat split. discriminate. Qed.

Ltac read_missing :=
  rewrite ?getitem_with_bind;
  repeat match goal with
  | H : getitem _ _ = _ |- _ => rewrite H; clear H; cbn [bind]
  | H : _ = Ok _ |- _ => rewrite H; clear H; cbn [bind]
  end;
  cbv zeta;
  match goal with
  | H : ~ In ?key (keys ?d) |- _ => now rewrite (getitem_missing d key H)
  end.

(** C9, amended: the key check never asks whether the fields a converter
    needs are there, and passes every record whose keys are within the
    allowed set; the converter then fails with a key error that names the
    missing field when it comes to read it: at once for the charset of a
    charset record and for the field each converter reads first, and, for
    a field it reads later, when what it reads before converts. *)
Theorem missing_field_key_error (d : dict) :
  (forall declared,
      incl (keys d) (allowed declared) -> _check_keys d declared = Ok tt)
  /\ (incl (keys d) (allowed [u"charset"]) ->
      ~ In (u"charset") (keys d) ->
      to_charset d = Raise (KeyError (JStr (u"charset"))))
  /\ (incl (keys d) (allowed [u"selectors"; u"declarations"]) ->
      ~ In (u"selectors") (keys d) ->
      to_rule d = Raise (KeyError (JStr (u"selectors"))))
  /\ (incl (keys d) (allowed [u"selectors"; u"declarations"]) ->
      forall v selectors,
        getitem d (u"selectors") = Ok v ->
        comma_join v = Ok selectors ->
        ~ In (u"declarations") (keys d) ->
        to_rule d = Raise (KeyError (JStr (u"declarations"))))
  /\ (incl (keys d) (allowed [u"vendor"; u"name"; u"keyframes"]) ->
      ~ In (u"keyframes") (keys d) ->
      to_keyframes d = Raise (KeyError (JStr (u"keyframes"))))
  /\ (incl (keys d) (allowed [u"vendor"; u"name"; u"keyframes"]) ->
      forall v keyframes,
        getitem d (u"keyframes") = Ok v ->
        for_each_in to_keyframe v = Ok keyframes ->
        ~ In (u"name") (keys d) ->
        to_keyframes d = Raise (KeyError (JStr (u"name"))))
  /\ (incl (keys d) (allowed [u"media"; u"rules"]) ->
      ~ In (u"rules") (keys d) ->
      to_media_query generic_to_node d
      = Raise (KeyError (JStr (u"rules"))))
  /\ (incl (keys d) (allowed [u"media"; u"rules"]) ->
      forall v rules,
        getitem d (u"rules") = Ok v ->
        for_each_in generic_to_node v = Ok rules ->
        ~ In (u"media") (keys d) ->
        to_media_query generic_to_node d
        = Raise (KeyError (JStr (u"media"))))
  /\ (incl (keys d) (allowed [u"declarations"; u"values"]) ->
      ~ In (u"declarations") (keys d) ->
      to_keyframe (JObj d) = Raise (KeyError (JStr (u"declarations"))))
  /\ (incl (keys d) (allowed [u"declarations"; u"values"]) ->
      forall v properties,
        getitem d (u"declarations") = Ok v ->
        for_each_in to_property v = Ok properties ->
        ~ In (u"values") (keys d) ->
        to_keyframe (JObj d) = Raise (KeyError (JStr (u"values"))))
  /\ (incl (keys d) (allowed [u"property"; u"value"]) ->
      getitem d (u"type") = Ok (JStr (u"declaration")) ->
      ~ In (u"property") (keys d) ->
      to_property (JObj d) = Raise (KeyError (JStr (u"property"))))
  /\ (incl (keys d) (allowed [u"property"; u"value"]) ->
      forall v,
        getitem d (u"type") = Ok (JStr (u"declaration")) ->
        getitem d (u"property") = Ok v ->
        ~ In (u"value") (keys d) ->
        to_property (JObj d) = Raise (KeyError (JStr (u"value")))).
Proof.
  repeat apply conj; try (intros declared; apply check_keys_passes);
    intros Hin; intros;
    apply check_keys_passes in Hin;
    unfold to_charset, to_rule, to_keyframes, to_media_query;
    cbn [to_keyframe to_property];
    try (rewrite is_text_true); read_missing.
Qed.

Lemma missing_field_key_error_witness :
  to_charset [(u"type", JStr (u"charset"))]
  = Raise (KeyError (JStr (u"charset"))).
Proof.
  apply (missing_field_key_error [(u"type", JStr (u"charset"))]).
  - apply subset_incl. reflexivity.
  - cbn. intros [H|[]]. discriminate H.
Defined.

(** * Further properties *)

(** ** Indentation of concatenated blocks *)

Lemma splitlines_app_LF (a b : str) :
  splitlines (a ++ nl ++ b) = splitlines (a ++ nl) ++ splitlines b.
Proof.
  induction a as [|c a IH].
  - cbn [app nl]. now rewrite splitlines_LF.
  - assert (Hne : splitlines (a ++ nl) <> [])
      by (apply splitlines_nonempty; now destruct a).
    cbn [app]. destruct (is_linebreak c) eqn:Hc.
    + rewrite !(splitlines_linebreak c _ Hc).
      destruct a as [|c' a'].
      * cbn [app nl]. destruct ((c =? CR)%N && (LF =? LF)%N).
        -- now rewrite splitlines_LF.
        -- now rewrite splitlines_LF.
      * cbn [app] in *. destruct ((c =? CR)%N && (c' =? LF)%N).
        -- rewrite IH. now destruct (splitlines (c' :: a' ++ nl)).
        -- now rewrite IH.
    + cbn [splitlines]. rewrite Hc, IH.
      now destruct (splitlines (a ++ nl)).
Qed.

Lemma indent_app (a b : str) :
  b <> [] -> indent (a ++ nl ++ b) = indent (a ++ nl) ++ indent b.
Proof.
  intros Hb.
  rewrite !indent_lines; try assumption; try (now destruct a).
  now rewrite splitlines_app_LF, map_app, concat_app.
Qed.

Lemma indent_block_all_empty (blocks : list str) :
  concat blocks = [] -> concat (map indent_block blocks) = [].
Proof.
  induction blocks as [|t blocks IH]; [reflexivity|]. cbn [concat map].
  intros E. apply app_eq_nil in E as [-> E]. now rewrite IH.
Qed.

Lemma indent_concat_blocks (blocks : list str) :
  Forall (fun t => t = [] \/ exists body, t = body ++ nl) blocks ->
  concat blocks <> [] ->
  indent (concat blocks) = concat (map indent_block blocks).
Proof.
  induction 1 as [|t blocks Ht _ IH]; [intros E; now elim E|].
  cbn [concat map]. destruct Ht as [->|[body ->]].
  - exact IH.
  - intros _. replace (indent_block (body ++ nl)) with (indent (body ++ nl))
      by (unfold indent_block; now destruct body).
    destruct (concat blocks) as [|c rest] eqn:E.
    + now rewrite indent_block_all_empty, !app_nil_r.
    + rewrite <- IH by discriminate. rewrite <- app_assoc.
      apply indent_app. discriminate.
Qed.

Lemma indent_concat (blocks : list str) :
  Forall (fun t => t = [] \/ exists body, t = body ++ nl) blocks ->
  indent (concat blocks)
  = if is_empty (concat blocks) then nl
    else concat (map indent_block blocks).
Proof.
  intros H. destruct (is_empty (concat blocks)) eqn:E.
  - destruct (concat blocks); [reflexivity|discriminate].
  - apply indent_concat_blocks; [exact H|].
    intros E'. rewrite E' in E. discriminate.
Qed.

(** X1: [indent] works block by block: on a sequence of texts that are
    each empty or ended by a newline, indenting the concatenation gives the
    concatenation of the indented non-empty texts; only when every text is
    empty does it give the lone newline of the empty text. *)
Theorem indent_blocks (blocks : list str) :
  Forall (fun t => t = [] \/ exists body, t = body ++ nl) blocks ->
  indent (concat blocks)
  = if is_empty (concat blocks) then nl
    else concat (map indent_block blocks).
Proof.
  exact (indent_concat blocks).
Qed.

Lemma indent_blocks_witness :
  indent (concat [u"a {" ++ nl ++ u"}" ++ nl; []; u"b {" ++ nl])
  = concat (map indent_block [u"a {" ++ nl ++ u"}" ++ nl; []; u"b {" ++ nl]).
Proof.
  apply (indent_blocks [u"a {" ++ nl ++ u"}" ++ nl; []; u"b {" ++ nl]).
  apply Forall_cons;
    [right; exists (u"a {" ++ nl ++ u"}"); reflexivity|].
  apply Forall_cons; [left; reflexivity|].
  apply Forall_cons; [right; exists (u"b {"); reflexivity|].
  apply Forall_nil.
Defined.

(** X2: whatever the text and its line terminators, the lines of
    [indent text] are the lines of the text behind four spaces (one empty
    line for the empty text), none holds a line boundary, and the result
    is those lines each ended by ['\n']: every terminator of the text has
    become a newline and the last line has got one. *)
Theorem indent_normal_form (text : str) :
  splitlines (indent text)
  = (if is_empty text then [[]]
     else map (fun line => u"    " ++ line) (splitlines text))
  /\ indent text
     = concat (map (fun line => line ++ nl) (splitlines (indent text)))
  /\ Forall no_linebreak (splitlines (indent text)).
Proof.
  destruct text as [|c rest]; [repeat split; repeat constructor|].
  assert (Hne : c :: rest <> []) by discriminate.
  cbn [is_empty]. rewrite (splitlines_indent _ Hne).
  split; [reflexivity|]. split.
  - rewrite (indent_lines _ Hne), map_map. reflexivity.
  - apply Forall_map. eapply Forall_impl; [|apply splitlines_no_linebreak].
    apply no_linebreak_indented.
Qed.

(** ** How renderings end *)

Lemma ends_statement_concat (blocks : list str) :
  Forall ends_statement blocks -> ends_statement (concat blocks).
Proof.
  induction 1 as [|t blocks Ht _ IH]; [now left|]. cbn [concat].
  destruct IH as [->|[body IH]]; [now rewrite app_nil_r|].
  right. exists (t ++ body).
  destruct IH as [->| ->]; [left|right]; now rewrite app_assoc.
Qed.

Lemma ends_statement_to_text (kw : kwargs) (n : node) :
  ends_statement (to_text kw n).
Proof.
  destruct n as [c|v nm kfs|media rules|sel props]; cbn [to_text].
  - unfold Charset_to_text. destruct (ignore_charset kw); [now left|].
    right. exists (u"@charset " ++ c). right. now rewrite <- app_assoc.
  - right. unfold KeyFrames_to_text.
    eexists. left. rewrite !app_assoc. reflexivity.
  - right. eexists. left. rewrite !app_assoc. reflexivity.
  - unfold Rule_to_text.
    destruct (ignore_empty_rules kw && is_empty props); [now left|].
    right. eexists. left. rewrite !app_assoc. reflexivity.
Qed.

Lemma ends_statement_render (kw : kwargs) (rules : list node) :
  ends_statement (render kw rules).
Proof.
  apply ends_statement_concat, Forall_map, Forall_forall.
  intros n _. apply ends_statement_to_text.
Qed.

Lemma ends_statement_newline (text : str) :
  ends_statement text -> text = [] \/ exists body, text = body ++ nl.
Proof.
  intros [->|[body [->| ->]]]; [now left| |]; right;
    eexists; rewrite app_assoc; reflexivity.
Qed.

Lemma format_css_Ok (css_to_json : str -> result json) (contents : str)
  (kw : kwargs) (text : str) :
  format_css css_to_json contents kw = Ok text ->
  exists out sheet rules_json rules,
    css_to_json contents = Ok out
    /\ subscript out (u"stylesheet") = Ok sheet
    /\ subscript sheet (u"rules") = Ok rules_json
    /\ for_each_in generic_to_node rules_json = Ok rules
    /\ text = render kw rules.
Proof.
  unfold format_css.
  destruct (css_to_json contents) as [out| |]; try discriminate.
  cbn [bind].
  destruct (subscript out _) as [sheet| |] eqn:E1; try discriminate.
  cbn [bind].
  destruct (subscript sheet _) as [rj| |] eqn:E2; try discriminate.
  cbn [bind].
  destruct (for_each_in _ rj) as [rules| |] eqn:E3; try discriminate.
  cbn [bind]. intros [= <-]. now exists out, sheet, rj, rules.
Qed.

Lemma ends_statement_format_css (css_to_json : str -> result json)
  (contents : str) (kw : kwargs) (text : str) :
  format_css css_to_json contents kw = Ok text -> ends_statement text.
Proof.
  intros H. apply format_css_Ok in H as (out & sheet & rj & rules & H).
  destruct H as (_ & _ & _ & _ & ->). apply ends_statement_render.
Qed.

(** X3: every rendering is empty or ends in a closing brace or a
    semicolon followed by one newline: a node, a sheet, and so the text
    [format_css] returns. *)
Theorem renderings_end_statements (kw : kwargs) :
  (forall n, ends_statement (to_text kw n))
  /\ (forall rules, ends_statement (render kw rules))
  /\ (forall css_to_json contents text,
        format_css css_to_json contents kw = Ok text ->
        ends_statement text).
Proof.
  split; [apply ends_statement_to_text|].
  split; [apply ends_statement_render|].
  intros css_to_json contents text. apply ends_statement_format_css.
Qed.

Lemma renderings_end_statements_witness :
  ends_statement (text_of_lines ["a {"; "    color: red;"; "}"]%string).
Proof.
  apply (proj2 (proj2 (renderings_end_statements (Kwargs false false)))
           (fun _ => Ok a_red_json) (u"a{color:red}")).
  reflexivity.
Defined.

Lemma indent_block_KeyFrame (k : KeyFrame) :
  indent_block (KeyFrame_to_text k) = indent (KeyFrame_to_text k).
Proof.
  unfold indent_block, KeyFrame_to_text. now destruct (values k).
Qed.

(** X4: a media query and a keyframes block indent their content child by
    child: between the braces stands the indented rendering of each child
    that renders to something, in order, and the lone newline only when
    nothing renders. *)
Theorem blocks_indent_children (kw : kwargs) :
  (forall media rules,
      to_text kw (MediaQuery media rules)
      = u"@media " ++ media ++ u" {" ++ nl
        ++ (if is_empty (render kw rules) then nl
            else concat (map (fun n => indent_block (to_text kw n)) rules))
        ++ u"}" ++ nl)
  /\ (forall vendor name keyframes,
        to_text kw (KeyFrames vendor name keyframes)
        = u"@" ++ vendor ++ u"keyframes " ++ name ++ u" {" ++ nl
          ++ (if is_empty keyframes then nl
              else concat (map (fun k => indent (KeyFrame_to_text k))
                             keyframes))
          ++ u"}" ++ nl).
Proof.
  split.
  - intros media rules. cbn [to_text]. do 4 f_equal.
    fold (render kw rules). unfold render.
    rewrite indent_concat, map_map; [reflexivity|].
    apply Forall_map, Forall_forall. intros n _.
    apply ends_statement_newline, ends_statement_to_text.
  - intros vendor name keyframes. cbn [to_text]. unfold KeyFrames_to_text.
    do 5 f_equal. rewrite indent_concat.
    + destruct keyframes as [|k keyframes]; [reflexivity|].
      replace (is_empty (concat (map KeyFrame_to_text (k :: keyframes))))
        with false.
      * rewrite map_map. cbn [is_empty].
        now rewrite (map_ext _ _ indent_block_KeyFrame).
      * cbn [map concat]. unfold KeyFrame_to_text at 1.
        destruct (values k); reflexivity.
    + apply Forall_map, Forall_forall. intros k _. right.
      unfold KeyFrame_to_text. eexists. rewrite !app_assoc. reflexivity.
Qed.

(** ** What the wrapper prints *)

Lemma rstrip_keeps (text : str) (c : char) :
  is_space c = false -> rstrip (text ++ [c]) = text ++ [c].
Proof.
  intros Hc. induction text as [|x text IH]; cbn [app rstrip].
  - now rewrite Hc.
  - rewrite IH. now destruct text.
Qed.

Lemma rstrip_drops (text : str) (c : char) :
  is_space c = true -> rstrip (text ++ [c]) = rstrip text.
Proof.
  intros Hc. induction text as [|x text IH]; cbn [app rstrip].
  - now rewrite Hc.
  - now rewrite IH.
Qed.

Lemma rstrip_statement (text : str) :
  ends_statement text -> text <> [] -> rstrip text ++ nl = text.
Proof.
  intros [->|[body H]] Hne; [congruence|].
  change nl with [LF] in *.
  destruct H as [->| ->];
    [change (u"}") with [125%N]|change (u";") with [59%N]];
    rewrite app_assoc, rstrip_drops by reflexivity;
    now rewrite rstrip_keeps by reflexivity.
Qed.

(** X5: stripping and printing change nothing of a rendering that is not
    empty: [main] prints the very text [format_css] returns with both
    options off, and a lone newline when that text is empty. *)
Theorem main_prints_rendering (css_to_json : str -> result json)
  (contents text : str) :
  format_css css_to_json contents (Kwargs false false) = Ok text ->
  main css_to_json contents = Ok (if is_empty text then nl else text).
Proof.
  intros H. unfold main. rewrite H. cbn [bind]. f_equal.
  destruct text as [|c rest] eqn:E; [reflexivity|]. cbn [is_empty].
  rewrite <- E. apply rstrip_statement.
  - rewrite <- E in H. eapply ends_statement_format_css. exact H.
  - rewrite E. discriminate.
Qed.

Lemma main_prints_rendering_witness :
  main (fun _ => Ok a_red_json) (u"a{color:red}")
  = Ok (text_of_lines ["a {"; "    color: red;"; "}"]%string).
Proof.
  apply (main_prints_rendering (fun _ => Ok a_red_json) (u"a{color:red}")
           (text_of_lines ["a {"; "    color: red;"; "}"]%string)).
  reflexivity.
Defined.

(** ** The options *)

Lemma is_charset_without (n : node) :
  is_charset (without_charsets n) = is_charset n.
Proof. now destruct n. Qed.

Lemma render_drop_charsets_step (ier : bool) (rules : list node) :
  Forall (fun n => to_text (Kwargs true ier) n =
                   if is_charset n then []
                   else to_text (Kwargs false ier) (without_charsets n))
    rules ->
  render (Kwargs true ier) rules
  = render (Kwargs false ier) (drop_charsets rules).
Proof.
  unfold render, drop_charsets.
  induction 1 as [|n rules Hn _ IH]; [reflexivity|].
  cbn [map concat filter]. rewrite Hn, IH, is_charset_without.
  now destruct (is_charset n).
Qed.

Lemma to_text_drop_charsets (ier : bool) (n : node) :
  to_text (Kwargs true ier) n =
    if is_charset n then []
    else to_text (Kwargs false ier) (without_charsets n).
Proof.
  induction n as [c|v nm kfs|media rules IH|sel props] using node_ind;
    try reflexivity.
  apply render_drop_charsets_step in IH.
  unfold render, drop_charsets in IH.
  cbn [is_charset without_charsets to_text]. now rewrite IH.
Qed.

(** X6: with [ignore_charset] set, what is rendered is the rendering,
    without the flag, of the tree from which the charset nodes were taken,
    those inside media queries too, and nothing else. *)
Theorem ignore_charset_exact (ier : bool) (rules : list node) :
  render (Kwargs true ier) rules
  = render (Kwargs false ier) (drop_charsets rules).
Proof.
  apply render_drop_charsets_step, Forall_forall. intros n _.
  apply to_text_drop_charsets.
Qed.

(** X7: the two options only bear on charset nodes and on rules without
    properties: a tree that holds neither renders the same under any two
    settings. *)
Theorem options_without_effect (kw kw' : kwargs) (n : node) :
  plain n = true -> to_text kw n = to_text kw' n.
Proof.
  induction n as [c|v nm kfs|media rules IH|sel props] using node_ind;
    cbn [plain to_text].
  - discriminate.
  - reflexivity.
  - intros H.
    assert (E : concat (map (to_text kw) rules)
                = concat (map (to_text kw') rules)).
    { induction IH as [|r rules Hr _ IHrules]; [reflexivity|].
      cbn [forallb] in H. apply andb_prop in H as [H1 H2].
      cbn [map concat]. now rewrite (Hr H1), (IHrules H2). }
    now rewrite E.
  - unfold Rule_to_text. destruct props; [discriminate|].
    cbn [is_empty]. now rewrite !andb_false_r.
Qed.

Lemma options_without_effect_witness :
  to_text (Kwargs true true) (MediaQuery (u"print") [a_red_node])
  = to_text (Kwargs false false) (MediaQuery (u"print") [a_red_node]).
Proof.
  apply (options_without_effect (Kwargs true true) (Kwargs false false)).
  reflexivity.
Defined.

(** ** What a built node says of its record *)

Lemma getitem_with_Ok_In {A} (k : json -> result A) (d : dict) (key : str)
  (a : A) :
  getitem_with k d key = Ok a -> In key (keys d).
Proof.
  induction d as [|[key' v] d IH]; cbn [getitem_with keys map fst In];
    [discriminate|].
  destruct (str_eqb key' key) eqn:E.
  - apply str_eqb_eq in E. now left.
  - intros H. right. now apply IH.
Qed.

Lemma check_keys_Ok (d : dict) (declared : list str) (x : unit) :
  _check_keys d declared = Ok x -> incl (keys d) (allowed declared).
Proof.
  unfold _check_keys. cbv zeta. fold (allowed declared).
  destruct (subset (keys d) (allowed declared)) eqn:E; [|discriminate].
  intros _. now apply subset_incl.
Qed.

Lemma TO_NODE_TYPES_Ok (ty : json) (conv : converter) :
  TO_NODE_TYPES ty = Ok conv ->
  ty = JStr (match conv with
             | c_charset => u"charset"
             | c_keyframes => u"keyframes"
             | c_media => u"media"
             | c_rule => u"rule"
             end).
Proof.
  destruct ty as [| | |s| |]; try discriminate. cbn [TO_NODE_TYPES].
  repeat match goal with
  | |- context [str_eqb s ?t] =>
      let E := fresh in
      destruct (str_eqb s t) eqn:E;
      [apply str_eqb_eq in E; subst s; now intros [= <-]|]
  end.
  discriminate.
Qed.

Ltac open_bind H :=
  let a := fresh "a" in
  let Ha := fresh "Ha" in
  apply bind_Ok in H as (a & Ha & H).

Ltac found_in H := apply getitem_with_Ok_In in H.

Lemma incl_two (a b : str) (l : list str) :
  In a l -> In b l -> incl [a; b] l.
Proof. intros Ha Hb x [<-|[<-|[]]]; assumption. Qed.

(** X8: a record only builds to a node when its type is the one of the
    class of that node, its keys are all within the fields declared for
    that class plus [position] and [type], and the fields the converter
    reads without a default are all there. *)
Theorem built_node_schema (d : dict) (n : node) :
  generic_to_node (JObj d) = Ok n ->
  getitem d (u"type") = Ok (JStr (type_of n))
  /\ incl (keys d) (allowed (declared_of n))
  /\ incl (required_of n) (keys d).
Proof.
  rewrite generic_to_node_eq. intros H.
  apply bind_Ok in H as (ty & Hty & H).
  apply bind_Ok in H as (conv & Hconv & H).
  apply TO_NODE_TYPES_Ok in Hconv. subst ty.
  destruct conv.
  - unfold to_charset in H. open_bind H. open_bind H.
    injection H as <-. apply check_keys_Ok in Ha. found_in Ha0.
    repeat split; try assumption. now intros x [<-|[]].
  - unfold to_keyframes in H. open_bind H. open_bind H. cbv zeta in H.
    open_bind H. open_bind H. open_bind H. injection H as <-.
    apply check_keys_Ok in Ha. found_in Ha0. found_in Ha1.
    repeat split; try assumption. now apply incl_two.
  - open_bind H. open_bind H. open_bind H. open_bind H. open_bind H.
    injection H as <-.
    apply check_keys_Ok in Ha. found_in Ha0. found_in Ha2.
    repeat split; try assumption. now apply incl_two.
  - unfold to_rule in H. open_bind H. open_bind H. open_bind H.
    injection H as <-.
    apply check_keys_Ok in Ha. found_in Ha0. found_in Ha1.
    repeat split; try assumption. now apply incl_two.
Qed.

Lemma built_node_schema_witness :
  incl (keys (removelast unexpected_rule))
    (allowed [u"selectors"; u"declarations"]).
Proof.
  apply (built_node_schema (removelast unexpected_rule) (Rule (u"a") [])).
  reflexivity.
Defined.

(** ** Failing and building whole sheets *)

(** X9: when a record of a sheet fails to build and those before it build,
    [format_css] and [main] fail with the exception of that record, whatever
    the records after it are. *)
Theorem first_failure_surfaces (css_to_json : str -> result json)
  (contents : str) (kw : kwargs) (before after : list json) (j : json)
  (built : list node) (e : exn) :
  css_to_json contents = Ok (stylesheet_of (before ++ j :: after)) ->
  for_each generic_to_node before = Ok built ->
  generic_to_node j = Raise e ->
  format_css css_to_json contents kw = Raise e
  /\ main css_to_json contents = Raise e.
Proof.
  intros Hp Hb Hj.
  assert (H : forall kw', format_css css_to_json contents kw' = Raise e).
  { intros kw'. unfold format_css. rewrite Hp.
    cbn [bind stylesheet_of subscript]. cbn.
    rewrite for_each_app, Hb. cbn [bind for_each]. now rewrite Hj. }
  split; [apply H|]. unfold main. now rewrite H.
Qed.

Lemma first_failure_surfaces_witness :
  format_css
    (fun _ => Ok (stylesheet_of [node_json a_red_node; comment_json;
                                 JNull]))
    [] (Kwargs false false)
  = Raise (KeyError (JStr (u"comment")))
  /\ main
       (fun _ => Ok (stylesheet_of [node_json a_red_node; comment_json;
                                    JNull]))
       []
     = Raise (KeyError (JStr (u"comment"))).
Proof.
  apply (first_failure_surfaces
           (fun _ => Ok (stylesheet_of [node_json a_red_node; comment_json;
                                        JNull]))
           [] (Kwargs false false) [node_json a_red_node] [JNull]
           comment_json [a_red_node]); reflexivity.
Defined.

Lemma to_keyframe_keyframe_json (k : KeyFrame) :
  to_keyframe (keyframe_json k) = Ok k.
Proof.
  destruct k as [vals props]. unfold keyframe_json.
  cbn [to_keyframe values properties].
  change (_check_keys ?d ?l) with (@Ok unit tt). cbn [bind].
  change (getitem_with ?k ?d (u"declarations"))
    with (for_each to_property (map declaration_json props)).
  rewrite (for_each_map_Ok to_property declaration_json)
    by apply to_property_declaration_json.
  reflexivity.
Qed.

Lemma for_each_map_Forall {A B} (f : A -> result B) (g : B -> A)
  (items : list B) :
  Forall (fun y => f (g y) = Ok y) items ->
  for_each f (map g items) = Ok items.
Proof.
  induction 1 as [|y ys Hy _ IH]; [reflexivity|].
  cbn [map for_each]. now rewrite Hy, IH.
Qed.

Lemma generic_to_node_node_json (n : node) :
  generic_to_node (node_json n) = Ok n.
Proof.
  induction n as [c|v nm kfs|media rules IH|sel props] using node_ind.
  - reflexivity.
  - cbn [node_json]. rewrite generic_to_node_eq.
    change (to_keyframes ?d) with
      (kf <- for_each to_keyframe (map keyframe_json kfs) ;;
       Ok (KeyFrames v nm kf)).
    now rewrite (for_each_map_Ok to_keyframe keyframe_json)
      by apply to_keyframe_keyframe_json.
  - cbn [node_json].
    change (generic_to_node (JObj ?d)) with
      (rs <- for_each generic_to_node (map node_json rules) ;;
       Ok (MediaQuery media rs)).
    now rewrite (for_each_map_Forall generic_to_node node_json rules IH).
  - cbn [node_json]. rewrite generic_to_node_eq.
    change (to_rule ?d) with
      (ps <- for_each to_property (map declaration_json props) ;;
       Ok (Rule sel ps)).
    now rewrite (for_each_map_Ok to_property declaration_json)
      by apply to_property_declaration_json.
Qed.

(** X10: every tree of nodes is built from the records that spell it out:
    a node from its record, a frame from its record, and a sheet of such
    records is rendered by [format_css] as the rendering of the nodes. *)
Theorem records_build_their_nodes :
  (forall n, generic_to_node (node_json n) = Ok n)
  /\ (forall k, to_keyframe (keyframe_json k) = Ok k)
  /\ (forall p, to_property (declaration_json p) = Ok p)
  /\ (forall rules contents kw,
        format_css (fun _ => Ok (stylesheet_of (map node_json rules)))
          contents kw
        = Ok (render kw rules)).
Proof.
  split; [apply generic_to_node_node_json|].
  split; [apply to_keyframe_keyframe_json|].
  split; [apply to_property_declaration_json|].
  intros rules contents kw. unfold format_css. cbn.
  now rewrite (for_each_map_Ok generic_to_node node_json)
    by apply generic_to_node_node_json.
Qed.

(** ** Positions *)

Lemma alike_exn_refl (e : exn) : alike_exn e e.
Proof. now destruct e. Qed.

Lemma alike_refl {A} (r : result A) : alike r r.
Proof. destruct r; cbn; auto using alike_exn_refl. Qed.

Lemma alike_eq {A} (r r' : result A) : r = r' -> alike r r'.
Proof. intros ->. apply alike_refl. Qed.

Lemma alike_bind {A B} (r r' : result A) (k k' : A -> result B) :
  alike r r' -> (forall a, alike (k a) (k' a)) ->
  alike (x <- r ;; k x) (x <- r' ;; k' x).
Proof.
  intros H Hk. destruct r as [a| |], r' as [a'| |]; cbn in H;
    try contradiction; cbn [bind].
  - subst a'. apply Hk.
  - exact H.
  - exact I.
Qed.

Lemma alike_modelled {A} (r r' : result A) :
  alike r r' -> r' <> Unmodelled -> r <> Unmodelled.
Proof.
  destruct r, r'; cbn; intros H H'; try contradiction;
    try discriminate; try congruence.
Qed.

Lemma alike_Ok {A} (r r' : result A) (a : A) :
  alike r r' -> (r = Ok a <-> r' = Ok a).
Proof.
  destruct r, r'; cbn; try contradiction; intros H;
    try (split; discriminate).
  subst. reflexivity.
Qed.

Lemma alike_Raise {A} (r r' : result A) (e : exn) :
  alike r r' -> is_assertion e = false ->
  (r = Raise e <-> r' = Raise e).
Proof.
  destruct r as [a|e1|], r' as [a'|e2|]; cbn; try contradiction;
    intros H He; try (split; discriminate).
  split; intros [= ->].
  - destruct e; try discriminate He; cbn in H; now subst.
  - destruct e1; cbn in H; destruct e; try discriminate He;
      try discriminate H; congruence.
Qed.

Lemma getitem_with_strip {A} (f : json -> json) (k : json -> result A)
  (d : dict) (key : str) :
  str_eqb (u"position") key = false ->
  getitem_with k (strip_fields f d) key
  = getitem_with (fun v => k (f v)) d key.
Proof.
  intros Hkey. induction d as [|[key' v] d IH]; [reflexivity|].
  unfold strip_fields in *. cbn [map filter fst snd getitem_with].
  destruct (str_eqb key' (u"position")) eqn:E; cbn [negb getitem_with].
  - apply str_eqb_eq in E. subst key'. now rewrite Hkey.
  - now rewrite IH.
Qed.

Lemma get_strip (f : json -> json) (d : dict) (key : str) (default : json) :
  str_eqb (u"position") key = false ->
  f default = default ->
  get (strip_fields f d) key default = f (get d key default).
Proof.
  intros Hkey Hd. induction d as [|[key' v] d IH]; [now cbn|].
  unfold strip_fields in *. cbn [map filter fst snd get].
  destruct (str_eqb key' (u"position")) eqn:E; cbn [negb get].
  - apply str_eqb_eq in E. subst key'. now rewrite Hkey.
  - rewrite IH. now destruct (str_eqb key' key).
Qed.

Lemma subset_strip (f : json -> json) (d : dict) (permitted : list str) :
  existsb (str_eqb (u"position")) permitted = true ->
  subset (keys (strip_fields f d)) permitted = subset (keys d) permitted.
Proof.
  intros Hp. induction d as [|[key' v] d IH]; [reflexivity|].
  unfold strip_fields, subset, keys in *.
  cbn [map filter fst snd forallb].
  destruct (str_eqb key' (u"position")) eqn:E; cbn [negb map fst forallb].
  - apply str_eqb_eq in E. subst key'. now rewrite Hp, IH.
  - now rewrite IH.
Qed.

Lemma alike_check_keys (f : json -> json) (d : dict)
  (declared : list str) :
  alike (_check_keys (strip_fields f d) declared) (_check_keys d declared).
Proof.
  unfold _check_keys. cbv zeta. rewrite subset_strip.
  - now destruct (subset (keys d) _).
  - rewrite existsb_app. cbn. now rewrite orb_true_r.
Qed.

Lemma alike_getitem_with {A} (k k' : json -> result A) (d : dict)
  (key : str) :
  Forall (fun kv => alike (k (snd kv)) (k' (snd kv))) d ->
  alike (getitem_with k d key) (getitem_with k' d key).
Proof.
  induction 1 as [|[key' v] d Hv _ IH]; cbn [getitem_with];
    [apply alike_refl|].
  now destruct (str_eqb key' key).
Qed.

Lemma alike_getitem_strip {A} (f : json -> json)
  (k k' : json -> result A) (d : dict) (key : str) :
  str_eqb (u"position") key = false ->
  (forall v, alike (k (f v)) (k' v)) ->
  alike (getitem_with k (strip_fields f d) key) (getitem_with k' d key).
Proof.
  intros Hkey H. rewrite getitem_with_strip by assumption.
  apply alike_getitem_with, Forall_forall. intros kv _. apply H.
Qed.

Lemma alike_getitem_bind {A} (f : json -> json)
  (k k' : json -> result A) (d : dict) (key : str) :
  str_eqb (u"position") key = false ->
  (forall v, alike (k (f v)) (k' v)) ->
  alike (v <- getitem (strip_fields f d) key ;; k v)
        (v <- getitem d key ;; k' v).
Proof.
  intros Hkey H. rewrite <- !getitem_with_bind.
  now apply alike_getitem_strip.
Qed.

Lemma alike_for_each {B} (f : json -> json) (g g' : json -> result B)
  (items : list json) :
  Forall (fun x => alike (g (f x)) (g' x)) items ->
  alike (for_each g (map f items)) (for_each g' items).
Proof.
  induction 1 as [|x xs Hx _ IH]; cbn [map for_each];
    [apply alike_refl|].
  apply alike_bind; [exact Hx|]. intros y.
  apply alike_bind; [exact IH|]. intros ys. apply alike_refl.
Qed.

Lemma alike_for_each_in {B} (g g' : json -> result B) (v : json) :
  (forall x, alike (g (without_positions x)) (g' x)) ->
  alike (for_each_in g (without_positions v)) (for_each_in g' v).
Proof.
  intros H. destruct v; cbn [without_positions for_each_in];
    try apply alike_refl.
  apply alike_for_each, Forall_forall. intros x _. apply H.
Qed.

Lemma as_text_without_positions (v : json) :
  as_text (without_positions v) = as_text v.
Proof. now destruct v. Qed.

Lemma is_text_without_positions (v : json) (s : str) :
  is_text (without_positions v) s = is_text v s.
Proof. now destruct v. Qed.

Lemma TO_NODE_TYPES_without_positions (v : json) :
  TO_NODE_TYPES (without_positions v) = TO_NODE_TYPES v.
Proof. now destruct v. Qed.

Lemma alike_comma_join (v : json) :
  alike (comma_join (without_positions v)) (comma_join v).
Proof.
  unfold comma_join. apply alike_bind; [|intros; apply alike_refl].
  apply alike_for_each_in. intros x. apply alike_eq. now destruct x.
Qed.

Lemma alike_to_property (j : json) :
  alike (to_property (without_positions j)) (to_property j).
Proof.
  destruct j as [| | | |items|d]; try apply alike_refl.
  cbn [without_positions to_property].
  apply alike_getitem_bind; [reflexivity|]. intros ty.
  rewrite is_text_without_positions.
  apply alike_bind; [now destruct (is_text ty _)|].
  intros _. apply alike_bind; [apply alike_check_keys|]. intros _.
  apply alike_getitem_bind; [reflexivity|]. intros p.
  apply alike_getitem_bind; [reflexivity|]. intros v.
  rewrite !as_text_without_positions. apply alike_refl.
Qed.

Lemma alike_to_keyframe (j : json) :
  alike (to_keyframe (without_positions j)) (to_keyframe j).
Proof.
  destruct j as [| | | |items|d]; try apply alike_refl.
  cbn [without_positions to_keyframe].
  apply alike_bind; [apply alike_check_keys|]. intros _.
  apply alike_bind.
  - apply alike_getitem_strip; [reflexivity|]. intros v.
    apply alike_for_each_in, alike_to_property.
  - intros props. apply alike_bind; [|intros; apply alike_refl].
    apply alike_getitem_strip; [reflexivity|]. apply alike_comma_join.
Qed.

Lemma alike_to_charset (d : dict) :
  alike (to_charset (strip_fields without_positions d)) (to_charset d).
Proof.
  unfold to_charset.
  apply alike_bind; [apply alike_check_keys|]. intros _.
  apply alike_bind; [|intros; apply alike_refl].
  apply alike_getitem_strip; [reflexivity|]. intros v.
  apply alike_eq, as_text_without_positions.
Qed.

Lemma alike_to_rule (d : dict) :
  alike (to_rule (strip_fields without_positions d)) (to_rule d).
Proof.
  unfold to_rule.
  apply alike_bind; [apply alike_check_keys|]. intros _.
  apply alike_bind.
  - apply alike_getitem_strip; [reflexivity|]. apply alike_comma_join.
  - intros sel. apply alike_bind; [|intros; apply alike_refl].
    apply alike_getitem_strip; [reflexivity|]. intros v.
    apply alike_for_each_in, alike_to_property.
Qed.

Lemma alike_to_keyframes (d : dict) :
  alike (to_keyframes (strip_fields without_positions d))
        (to_keyframes d).
Proof.
  unfold to_keyframes. cbv zeta.
  apply alike_bind; [apply alike_check_keys|]. intros _.
  apply alike_bind.
  - apply alike_getitem_strip; [reflexivity|]. intros v.
    apply alike_for_each_in, alike_to_keyframe.
  - intros kfs. rewrite get_strip by reflexivity.
    rewrite as_text_without_positions.
    apply alike_getitem_bind; [reflexivity|]. intros nm.
    rewrite as_text_without_positions. apply alike_refl.
Qed.

Lemma alike_to_media_query (d : dict) :
  Forall (fun kv =>
            alike (for_each_in generic_to_node
                     (without_positions (snd kv)))
                  (for_each_in generic_to_node (snd kv))) d ->
  alike (to_media_query generic_to_node
           (strip_fields without_positions d))
        (to_media_query generic_to_node d).
Proof.
  intros H. unfold to_media_query.
  apply alike_bind; [apply alike_check_keys|]. intros _.
  apply alike_bind.
  - rewrite getitem_with_strip by reflexivity.
    now apply alike_getitem_with.
  - intros rules. apply alike_bind; [|intros; apply alike_refl].
    apply alike_getitem_strip; [reflexivity|]. intros v.
    apply alike_eq, as_text_without_positions.
Qed.

Lemma alike_generic_to_node_both (j : json) :
  alike (generic_to_node (without_positions j)) (generic_to_node j)
  /\ alike (for_each_in generic_to_node (without_positions j))
           (for_each_in generic_to_node j).
Proof.
  induction j as [|b|n|s|items IH|fields IH] using json_ind;
    try (split; apply alike_refl).
  - split; [apply alike_refl|]. cbn [without_positions for_each_in].
    apply alike_for_each. eapply Forall_impl; [|exact IH].
    now intros x [Hx _].
  - split; [|apply alike_refl].
    cbn [without_positions generic_to_node].
    apply alike_getitem_bind; [reflexivity|]. intros ty.
    rewrite TO_NODE_TYPES_without_positions.
    apply alike_bind; [apply alike_refl|]. intros [].
    + apply alike_to_charset.
    + apply alike_to_keyframes.
    + apply alike_to_media_query.
      eapply Forall_impl; [|exact IH]. now intros kv [_ H].
    + apply alike_to_rule.
Qed.

Lemma alike_format_css (css_to_json : str -> result json)
  (contents : str) (kw : kwargs) :
  alike
    (format_css
       (fun c => out <- css_to_json c ;; Ok (without_positions out))
       contents kw)
    (format_css css_to_json contents kw).
Proof.
  unfold format_css.
  destruct (css_to_json contents) as [out| |]; try apply alike_refl.
  cbn [bind].
  destruct out as [| | | |items|d]; try apply alike_refl.
  cbn [without_positions subscript].
  apply alike_getitem_bind; [reflexivity|]. intros sheet.
  destruct sheet as [| | | |items|d']; try apply alike_refl.
  cbn [without_positions subscript].
  apply alike_getitem_bind; [reflexivity|]. intros rules_json.
  apply alike_bind; [apply alike_generic_to_node_both|].
  intros rules. apply alike_refl.
Qed.

(** X11: the [position] bindings of the parser never bear on the outcome,
    on the trees the model follows (those on which the conversion meets no
    text or record where Python would walk it as a sequence, and no value
    but a text in a field that is rendered): for such a tree, the tree
    without any [position] binding is followed too, builds to a node
    exactly when the tree does, and to the same one, and fails with a
    given exception that is no assertion exactly when the tree does; and
    so for [format_css] and a parser with the positions taken out of what
    it returns. *)
Theorem positions_are_ignored :
  (forall j,
      generic_to_node j <> Unmodelled ->
      generic_to_node (without_positions j) <> Unmodelled
      /\ (forall n,
            generic_to_node (without_positions j) = Ok n <->
            generic_to_node j = Ok n)
      /\ (forall e,
            is_assertion e = false ->
            (generic_to_node (without_positions j) = Raise e <->
             generic_to_node j = Raise e)))
  /\ (forall css_to_json contents kw,
        format_css css_to_json contents kw <> Unmodelled ->
        format_css
          (fun c => out <- css_to_json c ;; Ok (without_positions out))
          contents kw <> Unmodelled
        /\ (forall text,
              format_css
                (fun c => out <- css_to_json c ;; Ok (without_positions out))
                contents kw = Ok text <->
              format_css css_to_json contents kw = Ok text)
        /\ (forall e,
              is_assertion e = false ->
              (format_css
                 (fun c =>
                    out <- css_to_json c ;; Ok (without_positions out))
                 contents kw = Raise e <->
               format_css css_to_json contents kw = Raise e))).
Proof.
  split.
  - intros j Hj.
    destruct (alike_generic_to_node_both j) as [H _].
    split; [now apply (alike_modelled _ _ H)|].
    split; [intros n; now apply alike_Ok|].
    intros e He. now apply alike_Raise.
  - intros css_to_json contents kw Hf.
    pose proof (alike_format_css css_to_json contents kw) as H.
    split; [now apply (alike_modelled _ _ H)|].
    split; [intros text; now apply alike_Ok|].
    intros e He. now apply alike_Raise.
Qed.

Lemma positions_are_ignored_witness :
  generic_to_node (without_positions (JObj print_media))
  <> Unmodelled
  /\ (generic_to_node (without_positions (JObj print_media))
      = Ok (MediaQuery (u"print")
              [Rule (u"a, .b") [mkProperty (u"color") (u"red")];
               Rule (u"a") []]) <->
      generic_to_node (JObj print_media)
      = Ok (MediaQuery (u"print")
              [Rule (u"a, .b") [mkProperty (u"color") (u"red")];
               Rule (u"a") []])).
Proof.
  destruct positions_are_ignored as [H _].
  destruct (H (JObj print_media)) as (H1 & H2 & _).
  - intros E. vm_compute in E. discriminate E.
  - split; [exact H1|apply H2].
Defined.

(** ** The formatter line by line *)

Lemma one_line_no_linebreak (s : str) :
  one_line s = true <-> no_linebreak s.
Proof.
  unfold one_line, no_linebreak. rewrite forallb_forall, Forall_forall.
  split; intros H c Hc; specialize (H c Hc);
    now destruct (is_linebreak c).
Qed.

Lemma no_linebreak_app (a b : str) :
  no_linebreak a -> no_linebreak b -> no_linebreak (a ++ b).
Proof. intros Ha Hb. apply Forall_app. now split. Qed.

Lemma no_linebreak_u (s : string) :
  one_line (u s) = true -> no_linebreak (u s).
Proof. apply one_line_no_linebreak. Qed.

Create HintDb lines.

#[local] Hint Resolve no_linebreak_app : lines.
#[local] Hint Extern 1 (no_linebreak (u _)) =>
  (apply no_linebreak_u; reflexivity) : lines.

Lemma unlines_app (a b : list str) : unlines (a ++ b) = unlines a ++ unlines b.
Proof. unfold unlines. now rewrite map_app, concat_app. Qed.

Lemma unlines_concat (blocks : list (list str)) :
  unlines (concat blocks) = concat (map unlines blocks).
Proof.
  induction blocks as [|b blocks IH]; [reflexivity|].
  cbn [concat map]. now rewrite unlines_app, IH.
Qed.

Lemma splitlines_unlines (lines : list str) :
  Forall no_linebreak lines -> splitlines (unlines lines) = lines.
Proof. apply splitlines_concat. Qed.

Lemma indent_unlines (lines : list str) :
  Forall no_linebreak lines ->
  indent (unlines lines) = unlines (indented lines).
Proof.
  intros H. destruct lines as [|l lines]; [reflexivity|].
  rewrite indent_lines.
  - rewrite splitlines_unlines by assumption.
    unfold indented, unlines. cbn [is_empty]. now rewrite map_map.
  - unfold unlines. cbn [map concat]. now destruct l.
Qed.

Lemma no_linebreak_indented_lines (lines : list str) :
  Forall no_linebreak lines -> Forall no_linebreak (indented lines).
Proof.
  intros H. unfold indented. destruct lines as [|l lines];
    [repeat constructor|].
  cbn [is_empty]. apply Forall_map. eapply Forall_impl; [|exact H].
  apply no_linebreak_indented.
Qed.

Lemma Property_to_text_line (p : Property) :
  Property_to_text p = Property_line p ++ nl.
Proof.
  unfold Property_to_text, Property_line. now rewrite <- !app_assoc.
Qed.

Lemma properties_unlines (properties : list Property) :
  concat (map Property_to_text properties)
  = unlines (map Property_line properties).
Proof.
  unfold unlines. rewrite map_map. f_equal. apply map_ext.
  apply Property_to_text_line.
Qed.

Lemma no_linebreak_Property_line (p : Property) :
  one_line_property p = true -> no_linebreak (Property_line p).
Proof.
  unfold one_line_property. intros H. apply andb_prop in H as [H1 H2].
  apply one_line_no_linebreak in H1, H2. unfold Property_line.
  auto 10 with lines.
Qed.

Lemma no_linebreak_Property_lines (properties : list Property) :
  forallb one_line_property properties = true ->
  Forall no_linebreak (map Property_line properties).
Proof.
  rewrite forallb_forall. intros H. apply Forall_map, Forall_forall.
  intros p Hp. now apply no_linebreak_Property_line, H.
Qed.

Lemma block_unlines (header : str) (properties : list Property) :
  header ++ u" {" ++ nl ++ concat (map Property_to_text properties)
  ++ u"}" ++ nl
  = unlines ((header ++ u" {") :: map Property_line properties ++ [u"}"]).
Proof.
  rewrite properties_unlines. unfold unlines at 2.
  cbn [map concat]. fold (unlines (map Property_line properties ++ [u"}"])).
  rewrite unlines_app, <- !app_assoc. reflexivity.
Qed.

Lemma no_linebreak_block (header : str) (properties : list Property) :
  no_linebreak header ->
  forallb one_line_property properties = true ->
  Forall no_linebreak
    ((header ++ u" {") :: map Property_line properties ++ [u"}"]).
Proof.
  intros Hh Hp. constructor; [auto with lines|].
  apply Forall_app. split; [now apply no_linebreak_Property_lines|].
  repeat constructor.
Qed.

Lemma KeyFrame_to_text_lines (k : KeyFrame) :
  KeyFrame_to_text k = unlines (KeyFrame_lines k).
Proof. apply block_unlines. Qed.

Lemma no_linebreak_KeyFrame_lines (k : KeyFrame) :
  one_line_keyframe k = true -> Forall no_linebreak (KeyFrame_lines k).
Proof.
  unfold one_line_keyframe. intros H. apply andb_prop in H as [H1 H2].
  apply no_linebreak_block; [now apply one_line_no_linebreak|exact H2].
Qed.

Lemma Forall_concat_lines {A} (f : A -> list str) (ok : A -> bool)
  (items : list A) :
  (forall x, In x items -> ok x = true -> Forall no_linebreak (f x)) ->
  forallb ok items = true ->
  Forall no_linebreak (concat (map f items)).
Proof.
  intros H Hok. rewrite forallb_forall in Hok.
  induction items as [|x items IH]; [constructor|].
  cbn [map concat]. apply Forall_app. split.
  - apply H; [now left|]. apply Hok. now left.
  - apply IH; intros; [apply H|apply Hok]; auto; now right.
Qed.

Lemma nested_unlines (header : str) (inner : list str) :
  Forall no_linebreak inner ->
  header ++ nl ++ indent (unlines inner) ++ u"}" ++ nl
  = unlines (header :: indented inner ++ [u"}"]).
Proof.
  intros H. rewrite indent_unlines by assumption.
  unfold unlines at 2. cbn [map concat].
  fold (unlines (indented inner ++ [u"}"])).
  rewrite unlines_app, <- !app_assoc. reflexivity.
Qed.

Lemma no_linebreak_nested (header : str) (inner : list str) :
  no_linebreak header -> Forall no_linebreak inner ->
  Forall no_linebreak (header :: indented inner ++ [u"}"]).
Proof.
  intros Hh Hi. constructor; [exact Hh|]. apply Forall_app.
  split; [now apply no_linebreak_indented_lines|repeat constructor].
Qed.

Lemma to_text_lines_both (kw : kwargs) (n : node) :
  one_line_node n = true ->
  to_text kw n = unlines (lines_of kw n)
  /\ Forall no_linebreak (lines_of kw n).
Proof.
  induction n as [c|v nm kfs|media rules IH|sel props] using node_ind;
    cbn [one_line_node to_text lines_of]; intros H.
  - apply one_line_no_linebreak in H. unfold Charset_to_text.
    destruct (ignore_charset kw); [split; [reflexivity|constructor]|].
    split.
    + unfold unlines. cbn [map concat].
      now rewrite app_nil_r, <- !app_assoc.
    + apply Forall_cons; [auto 10 with lines|apply Forall_nil].
  - apply andb_prop in H as [H H3]. apply andb_prop in H as [H1 H2].
    apply one_line_no_linebreak in H1, H2.
    assert (Hin : Forall no_linebreak (concat (map KeyFrame_lines kfs))).
    { apply (Forall_concat_lines KeyFrame_lines one_line_keyframe);
        [|exact H3].
      intros k _. apply no_linebreak_KeyFrame_lines. }
    split.
    + unfold KeyFrames_to_text.
      replace (concat (map KeyFrame_to_text kfs))
        with (unlines (concat (map KeyFrame_lines kfs))).
      * rewrite <- nested_unlines by assumption.
        now rewrite <- !app_assoc.
      * rewrite unlines_concat, map_map. f_equal. apply map_ext.
        intros k. symmetry. apply KeyFrame_to_text_lines.
    + apply no_linebreak_nested; [auto 10 with lines|exact Hin].
  - apply andb_prop in H as [H1 H2]. apply one_line_no_linebreak in H1.
    rewrite forallb_forall in H2. rewrite Forall_forall in IH.
    assert (Hin : Forall no_linebreak (concat (map (lines_of kw) rules))).
    { apply Forall_concat, Forall_map, Forall_forall. intros r Hr.
      now apply IH; [|apply H2]. }
    split.
    + replace (concat (map (to_text kw) rules))
        with (unlines (concat (map (lines_of kw) rules))).
      * rewrite <- nested_unlines by assumption.
        now rewrite <- !app_assoc.
      * rewrite unlines_concat, map_map. f_equal. apply map_ext_in.
        intros r Hr. symmetry. now apply IH; [|apply H2].
    + apply no_linebreak_nested; [auto 10 with lines|exact Hin].
  - apply andb_prop in H as [H1 H2]. apply one_line_no_linebreak in H1.
    unfold Rule_to_text.
    destruct (ignore_empty_rules kw && is_empty props);
      [split; [reflexivity|constructor]|].
    split; [apply block_unlines|now apply no_linebreak_block].
Qed.

(** X12: on a tree whose texts hold no line boundary, the formatter is a
    printer of lines: a node renders to the lines of its header, of its
    properties or of its children four spaces further in, and of its
    closing brace, each ended by ['\n'], and splitting the rendering gives
    those lines back. *)
Theorem to_text_lines (kw : kwargs) (n : node) :
  one_line_node n = true ->
  to_text kw n = unlines (lines_of kw n)
  /\ splitlines (to_text kw n) = lines_of kw n.
Proof.
  intros H. destruct (to_text_lines_both kw n H) as [E F].
  split; [exact E|]. rewrite E. now apply splitlines_unlines.
Qed.

Lemma to_text_lines_witness :
  splitlines
    (to_text (Kwargs false false) (MediaQuery (u"print") [a_red_node]))
  = [u"@media print {"; u"    a {"; u"        color: red;"; u"    }";
     u"}"].
Proof.
  apply (to_text_lines (Kwargs false false)
           (MediaQuery (u"print") [a_red_node])).
  reflexivity.
Defined.

(** ** Values that are no record, records without type *)

(** X13: the dispatch and the converter of declarations read the type
    before anything else: a value that is no record fails with a type
    error, and a record without type with the key error of [type],
    whatever else it holds. *)
Theorem type_is_read_first (d : dict) :
  ~ In (u"type") (keys d) ->
  generic_to_node (JObj d) = Raise (KeyError (JStr (u"type")))
  /\ to_property (JObj d) = Raise (KeyError (JStr (u"type")))
  /\ (forall j, (forall fields, j <> JObj fields) ->
        generic_to_node j = Raise TypeError
        /\ to_property j = Raise TypeError).
Proof.
  intros H. split; [|split].
  - rewrite generic_to_node_eq. now rewrite (getitem_missing d _ H).
  - cbn [to_property]. now rewrite (getitem_missing d _ H).
  - intros j Hj. destruct j; try (split; reflexivity).
    now elim (Hj fields).
Qed.

Lemma type_is_read_first_witness :
  to_property untyped_declaration_json = Raise (KeyError (JStr (u"type"))).
Proof.
  apply (type_is_read_first
           [(u"property", JStr (u"color")); (u"value", JStr (u"red"));
            (u"unexpected", JStr (u"x"))]).
  cbn. intros H. repeat destruct H as [H|H]; try discriminate H. exact H.
Defined.
